(** * Retinal image preprocessing ([preprocessing.py]): model and properties

    A shallow embedding of [preprocessing.py].  Images are NumPy arrays that
    live in a store and are passed by reference, so every function of the
    script is a computation over a [world]: the store of arrays, the global
    tuning parameters and the list of images handed to [cv.imshow].  The
    calls into OpenCV whose result is an algorithm of the library (decoding,
    interpolation, the Hough transform, rasterisation, blob detection) are
    fields of the interface [OpenCV]; the calls whose result is fixed by the
    library's documentation (binary threshold, bounding rectangle, filled
    rectangle, colour conversion) are written out. *)

From Stdlib Require Import ZArith QArith Qabs Lia Lqa Bool.
From stdpp Require Import base option list gmap strings.

Local Open Scope Z_scope.

(** ** Exceptions and results *)

(** The exceptions the interpreter and the library raise.  The last four are
    the names the specification uses; no statement of the script raises
    them. *)
Inductive exn : Type :=
  | IndexError
  | ValueError
  | TypeError
  | AttributeError
  | ZeroDivisionError
  | CvError
  | NoCircleDetectedError
  | DegenerateBoundingBoxError
  | InvalidFormatError
  | LoadError.

Inductive outcome (A : Type) : Type :=
  | Ok (a : A)
  | Raise (e : exn).
Arguments Ok {A} a.
Arguments Raise {A} e.

(** ** Arrays *)

Definition gray_px := list (list Z).
Definition rgb := (Z * Z * Z)%type.
Definition color_px := list (list rgb).

(** An 8-bit image: a single-channel (h, w) array or a three-channel
    (h, w, 3) array.  Rows are lists; an array without rows is [[]]. *)
Inductive ndarray : Type :=
  | Gray (px : gray_px)
  | Color (px : color_px).

Definition rows {A} (g : list (list A)) : Z := Z.of_nat (length g).
Definition cols {A} (g : list (list A)) : Z :=
  match g with
  | [] => 0
  | r :: _ => Z.of_nat (length r)
  end.

(** Every row has the width of the first one. *)
Definition rect {A} (g : list (list A)) : Prop :=
  Forall (fun r => Z.of_nat (length r) = cols g) g.

Definition pixel {A} (g : list (list A)) (r c : nat) : option A :=
  g !! r ≫= (.!! c).

(** [img.shape]: a pair for a single-channel array, a triple otherwise. *)
Definition shape (a : ndarray) : list Z :=
  match a with
  | Gray g => [rows g; cols g]
  | Color g => [rows g; cols g; 3]
  end.

(** ** Global tuning parameters (lines 63-81) *)

Definition STD_RES : Z := 512.
Definition THRESH : Z := 30.
Definition KERNEL : Z := 3.

Record params : Type := {
  DP : Z;
  MD : Z;
  P1 : Z;
  P2 : Z;
  MIN_R : Z;
  MAX_R : Z;
  LOW_THRESH : Z;
  MAX_THRESH : Z
}.

(** [MIN_R = int(STD_RES * 0.4)] is [int(204.8) = 204]. *)
Definition default_params : params :=
  {| DP := 1; MD := STD_RES; P1 := 140; P2 := 30;
     MIN_R := 204; MAX_R := STD_RES;
     LOW_THRESH := 0; MAX_THRESH := 255 |}.

(** ** The world: store, globals, display *)

Definition loc := positive.

(** A Python value that is an array reference or [None]. *)
Definition pyval := option loc.

Record world : Type := {
  heap : gmap positive ndarray;
  globals : params;
  shown : list (string * ndarray)
}.

Definition set_heap (h : gmap positive ndarray) (w : world) : world :=
  {| heap := h; globals := globals w; shown := shown w |}.
Definition set_globals (p : params) (w : world) : world :=
  {| heap := heap w; globals := p; shown := shown w |}.
Definition add_shown (s : string) (a : ndarray) (w : world) : world :=
  {| heap := heap w; globals := globals w; shown := shown w ++ [(s, a)] |}.

Definition empty_world : world :=
  {| heap := ∅; globals := default_params; shown := [] |}.

(** Computations: the world is threaded through, and survives an
    exception (what was mutated stays mutated). *)
Definition M (A : Type) : Type := world → outcome A * world.

#[global] Instance M_ret : MRet M := λ A a w, (Ok a, w).
#[global] Instance M_bind : MBind M := λ A B f m w,
  match m w with
  | (Ok a, w') => f a w'
  | (Raise e, w') => (Raise e, w')
  end.

Definition raise {A} (e : exn) : M A := λ w, (Raise e, w).

(** A new array object. *)
Definition alloc (a : ndarray) : M loc := λ w,
  let l := fresh (dom (heap w)) in
  (Ok l, set_heap (<[l := a]> (heap w)) w).

(** The array behind a reference; a reference held by the program always
    denotes a live object, the last case is never taken on those. *)
Definition read (l : loc) : M ndarray := λ w,
  match heap w !! l with
  | Some a => (Ok a, w)
  | None => (Raise AttributeError, w)
  end.

(** In-place update of the array behind a reference. *)
Definition write (l : loc) (a : ndarray) : M unit := λ w,
  (Ok tt, set_heap (<[l := a]> (heap w)) w).

Definition get_globals : M params := λ w, (Ok (globals w), w).
Definition put_globals (p : params) : M unit := λ w, (Ok tt, set_globals p w).

(** Running a computation whose outcome is already known. *)
Definition lift {A} (o : outcome A) : M A := λ w, (o, w).

(** An image argument of a library call that needs pixels to work on.  The
    bindings hand [None] to the library as an empty matrix; [cv.resize],
    [cv.cvtColor], [cv.imshow], [cv.HoughCircles], [cv.erode] and
    [cv.dilate] assert a non-empty source.  The calls that accept an empty
    matrix ([cv.threshold], [cv.equalizeHist], [cv.boundingRect]) do not go
    through [cv_arg].  The drawing and detection calls do; the script
    reaches them only with an array at hand (after [img.shape], or on an
    array a library call has just returned), never with [None]. *)
Definition cv_arg (v : pyval) : M loc :=
  match v with
  | Some l => mret l
  | None => raise CvError
  end.

(** [v.shape]: [None] has no such attribute. *)
Definition get_shape (v : pyval) : M (list Z) :=
  match v with
  | Some l => a ← read l; mret (shape a)
  | None => raise AttributeError
  end.

(** The array a computation returns, read from the store it leaves. *)
Definition result_array (r : outcome pyval * world) : option ndarray :=
  match r with
  | (Ok (Some l), w) => heap w !! l
  | _ => None
  end.

(** ** Thresholder (lines 110-113) *)

(** [cv.threshold(src, thresh, maxval, cv.THRESH_BINARY)]:
    [dst = maxval if src > thresh else 0], on every channel. *)
Definition thresh_binary (thresh maxval p : Z) : Z :=
  if thresh <? p then maxval else 0.

Definition cv_threshold_px (thresh maxval : Z) (a : ndarray) : ndarray :=
  match a with
  | Gray g => Gray (map (map (thresh_binary thresh maxval)) g)
  | Color g =>
      Color (map (map (λ '(c0, c1, c2),
        (thresh_binary thresh maxval c0,
         thresh_binary thresh maxval c1,
         thresh_binary thresh maxval c2))) g)
  end.

(** The call without [dst]: the result is a new array.  [None] is an empty
    matrix to the library: the call succeeds on it, and hands [None] back
    for the image. *)
Definition cv_threshold (src : pyval) (thresh maxval : Z) : M pyval :=
  match src with
  | Some l =>
      a ← read l;
      out ← alloc (cv_threshold_px thresh maxval a);
      mret (Some out)
  | None => mret None
  end.

Definition threshold (img : pyval) : M pyval :=
  output ← cv_threshold img THRESH 255;
  mret output.

(** ** Lists the way Python indexes them *)

(** [l[i]] for [i >= 0]. *)
Definition py_index {A} (l : list A) (i : nat) : M A :=
  match l !! i with
  | Some x => mret x
  | None => raise IndexError
  end.

(** [a, b = l]: the list must hold exactly two values. *)
Definition unpack2 {A} (l : list A) : M (A * A) :=
  match l with
  | [a; b] => mret (a, b)
  | _ => raise ValueError
  end.

(** [for x in l: body(x)]. *)
Fixpoint for_each {A} (l : list A) (body : A → M unit) : M unit :=
  match l with
  | [] => mret tt
  | x :: l' => _ ← body x; for_each l' body
  end.

(** A slice bound [i] on a sequence of length [len]: negative bounds count
    from the end, and every bound is clipped to the sequence. *)
Definition slice_bound (len i : Z) : nat :=
  Z.to_nat (if i <? 0 then Z.max (i + len) 0 else Z.min i len).

(** [l[i:j]]. *)
Definition py_slice {A} (l : list A) (i j : Z) : list A :=
  let a := slice_bound (Z.of_nat (length l)) i in
  let b := slice_bound (Z.of_nat (length l)) j in
  take (b - a) (drop a l).

(** [g[r0:r1, c0:c1]] on a two-dimensional array. *)
Definition slice2 {A} (g : list (list A)) (r0 r1 c0 c1 : Z) : list (list A) :=
  map (λ row, py_slice row c0 c1) (py_slice g r0 r1).

(** NumPy broadcasting along one axis: a value of the target's length, or
    of length one repeated. *)
Definition broadcast {A} (n : nat) (l : list A) : option (list A) :=
  if decide (length l = n) then Some l
  else match l with
       | [x] => Some (replicate n x)
       | _ => None
       end.

(** [g[r0:r1, c0:c1] = v]: [v] is broadcast to the shape of the target
    window and written into it; [None] when the shapes do not agree. *)
Definition setslice2 {A} (g : list (list A)) (r0 r1 c0 c1 : Z)
    (v : list (list A)) : option (list (list A)) :=
  let ra := slice_bound (rows g) r0 in
  let rb := slice_bound (rows g) r1 in
  let ca := slice_bound (cols g) c0 in
  let cb := slice_bound (cols g) c1 in
  vr ← broadcast (rb - ra) v;
  vs ← mapM (broadcast (cb - ca)) vr;
  Some (imap (λ r row,
          imap (λ c p,
            if bool_decide (ra ≤ r < rb ∧ ca ≤ c < cb)%nat
            then default p (pixel vs (r - ra) (c - ca))
            else p) row) g).

(** [np.zeros((h, w), dtype=np.uint8)]. *)
Definition zeros (h w : Z) : gray_px :=
  replicate (Z.to_nat h) (replicate (Z.to_nat w) 0).

(** An array built pixel by pixel. *)
Definition tabulate {A} (h w : Z) (f : nat → nat → A) : list (list A) :=
  map (λ r, map (f r) (seq 0 (Z.to_nat w))) (seq 0 (Z.to_nat h)).

(** ** Floating point *)

(** The double-precision operations the loader uses.  [fval] is the rational
    a (finite) floating-point number denotes. *)
Class FloatOps : Type := {
  float : Type;
  float_of_int : Z → float;
  fdiv : float → float → float;
  fmul : float → float → float;
  cvRound : float → Z;
  fval : float → Q
}.

(** The accuracy IEEE 754 arithmetic in round-to-nearest guarantees away
    from overflow and underflow: conversions of integers up to [2^53] are
    exact, a quotient or product carries a relative error of at most
    [2^-53], and [cvRound] returns a nearest integer. *)
Definition ulp_half : Q := 1 # (2 ^ 53).

Class IEEE754 (fl : FloatOps) : Prop := {
  float_of_int_exact : ∀ z : Z,
    (Z.abs z <= 2 ^ 53)%Z → fval (float_of_int z) == inject_Z z;
  fdiv_accurate : ∀ a b : float,
    (1 <= fval a)%Q → (fval a <= inject_Z (2 ^ 53))%Q →
    (1 <= fval b)%Q → (fval b <= inject_Z (2 ^ 53))%Q →
    (Qabs (fval (fdiv a b) - fval a / fval b)
       <= ulp_half * (fval a / fval b))%Q;
  fmul_accurate : ∀ a b : float,
    (1 # (2 ^ 60) <= fval a)%Q → (fval a <= inject_Z (2 ^ 60))%Q →
    (1 # (2 ^ 60) <= fval b)%Q → (fval b <= inject_Z (2 ^ 60))%Q →
    (Qabs (fval (fmul a b) - fval a * fval b)
       <= ulp_half * (fval a * fval b))%Q;
  cvRound_nearest : ∀ f : float,
    (Qabs (fval f) <= inject_Z (2 ^ 30))%Q →
    (Qabs (inject_Z (cvRound f) - fval f) <= 1 # 2)%Q
}.

(** Round to nearest, ties to even, on a rational. *)
Definition Qround_even (q : Q) : Z :=
  let n := Qnum q in
  let d := Z.pos (Qden q) in
  let k := n / d in
  let r := n mod d in
  if 2 * r <? d then k
  else if d <? 2 * r then k + 1
  else if Z.even k then k else k + 1.

(** Arithmetic without rounding error, for evaluating the model where the
    double-precision operations are exact. *)
Definition exact_float : FloatOps :=
  {| float := Q;
     float_of_int := inject_Z;
     fdiv := Qdiv;
     fmul := Qmult;
     cvRound := Qround_even;
     fval := λ q, q |}.

(** ** The OpenCV interface *)

(** Parameters of [cv.SimpleBlobDetector_Params] the script sets. *)
Record blob_params : Type := {
  minThreshold : Q;
  maxThreshold : Q;
  thresholdStep : Q;
  filterByArea : bool;
  filterByColor : bool;
  filterByConvexity : bool;
  minInertiaRatio : Q;
  maxInertiaRatio : Q
}.

(** A number as the script hands it to [cv.circle]: a Python [int], or a
    [numpy.float32] (given by the rational it denotes), which is what the
    rows of the array returned by [cv.HoughCircles] hold. *)
Inductive num : Type :=
  | PyInt (z : Z)
  | Float32 (q : Q).

(** What the library computes and the script only passes on:
    - [imread_file path grayscale]: the decoded file, [None] when it cannot
      be read; [grayscale] selects [cv.IMREAD_GRAYSCALE] over [-1];
    - [equalize_lut img]: the look-up table of histogram equalisation, built
      from the histogram of [img] and applied to each of its pixels;
    - [inter_area_gray src dw dh r c]: the pixel at row [r], column [c] of
      [src] resampled to [dw] by [dh] with [cv.INTER_AREA];
    - [HoughCircles_px img p]: the Hough gradient transform with the global
      parameters [p]: the library's error, or an array of 32-bit floats of
      shape (1, N, 3), or [None] without circles;
    - [circle_covers center radius thickness r c]: whether the rasterised
      circle (integer centre and radius) touches the pixel at row [r],
      column [c];
    - [erode_px], [dilate_px]: morphology with a 3 by 3 kernel of ones;
    - [blob_detect], [drawKeypoints_px]: the blob detector and its overlay;
    - [Canny_px low high aperture]: the edge detector. *)
Class OpenCV : Type := {
  keypoint : Type;
  imread_file : string → bool → option ndarray;
  equalize_lut : gray_px → Z → Z;
  inter_area_gray : gray_px → Z → Z → nat → nat → Z;
  inter_area_color : color_px → Z → Z → nat → nat → rgb;
  HoughCircles_px :
    gray_px → params → outcome (option (list (list (Q * Q * Q))));
  circle_covers : Z * Z → Z → Z → nat → nat → bool;
  erode_px : gray_px → gray_px;
  dilate_px : gray_px → gray_px;
  blob_detect : blob_params → gray_px → list keypoint;
  drawKeypoints_px : gray_px → list keypoint → rgb → color_px;
  Canny_px : gray_px → Z → Z → Z → gray_px
}.


Definition FILLED : Z := -1.

(** A circle as [hough_circles] returns it: (x, y, radius). *)
Definition circle : Type := (num * num * num)%type.

(** An integer argument of a library call: the bindings take a Python
    [int] that fits a C [int], and refuse a floating-point number. *)
Definition c_int (n : num) : option Z :=
  match n with
  | PyInt z => if (- 2 ^ 31 <=? z) && (z <? 2 ^ 31) then Some z else None
  | Float32 _ => None
  end.

Section Preprocessing.

Context {cv : OpenCV} {fl : FloatOps}.

(** *** Library calls *)

(** [cv.imread(path, flags)]: a new array, or [None]. *)
Definition cv_imread (path : string) (grayscale : bool) : M pyval :=
  match imread_file path grayscale with
  | Some a => l ← alloc a; mret (Some l)
  | None => mret None
  end.

(** [cv.equalizeHist(src, dst)] with [dst] the source itself: the image is
    equalised in place; the library asserts a single 8-bit channel, and
    returns at once on an empty matrix, which is what [None] is to it. *)
Definition cv_equalizeHist (src dst : pyval) : M unit :=
  match src, dst with
  | Some l, Some d =>
      a ← read l;
      match a with
      | Gray g => write d (Gray (map (map (equalize_lut g)) g))
      | Color _ => raise CvError
      end
  | Some l, None =>
      a ← read l;
      match a with
      | Gray g => _ ← alloc (Gray (map (map (equalize_lut g)) g)); mret tt
      | Color _ => raise CvError
      end
  | None, _ => mret tt
  end.

Definition is_empty (a : ndarray) : bool :=
  match a with
  | Gray g => (rows g =? 0) || (cols g =? 0)
  | Color g => (rows g =? 0) || (cols g =? 0)
  end.

Definition width (a : ndarray) : Z :=
  match a with Gray g => cols g | Color g => cols g end.
Definition height (a : ndarray) : Z :=
  match a with Gray g => rows g | Color g => rows g end.

Definition resize_px (a : ndarray) (dw dh : Z) : ndarray :=
  match a with
  | Gray g => Gray (tabulate dh dw (inter_area_gray g dw dh))
  | Color g => Color (tabulate dh dw (inter_area_color g dw dh))
  end.

(** The common end of [cv.resize]: the library asserts a non-empty source
    and a non-empty target size, and returns a new array. *)
Definition resize_to (a : ndarray) (dw dh : Z) : M pyval :=
  if is_empty a then raise CvError
  else if (dw <=? 0) || (dh <=? 0) then raise CvError
  else out ← alloc (resize_px a dw dh); mret (Some out).

(** [cv.resize(src, (dw, dh), interpolation=cv.INTER_AREA)]. *)
Definition cv_resize_dsize (src : pyval) (dw dh : Z) : M pyval :=
  l ← cv_arg src;
  a ← read l;
  resize_to a dw dh.

(** [cv.resize(src, None, fx=fx, fy=fy, interpolation=cv.INTER_AREA)]: the
    target size is [(cvRound(cols * fx), cvRound(rows * fy))]. *)
Definition cv_resize_scale (src : pyval) (fx fy : float) : M pyval :=
  l ← cv_arg src;
  a ← read l;
  resize_to a (cvRound (fmul (float_of_int (width a)) fx))
              (cvRound (fmul (float_of_int (height a)) fy)).

(** A filled axis-aligned rectangle: both corners belong to it, in either
    order, and what lies outside the image is clipped. *)
Definition in_rect (x1 y1 x2 y2 : Z) (r c : nat) : bool :=
  (Z.min x1 x2 <=? Z.of_nat c) && (Z.of_nat c <=? Z.max x1 x2) &&
  (Z.min y1 y2 <=? Z.of_nat r) && (Z.of_nat r <=? Z.max y1 y2).

Definition fill {A} (inside : nat → nat → bool) (v : A)
    (g : list (list A)) : list (list A) :=
  imap (λ r row, imap (λ c p, if inside r c then v else p) row) g.

Definition paint (inside : nat → nat → bool) (color : rgb)
    (a : ndarray) : ndarray :=
  match a with
  | Gray g => Gray (fill inside color.1.1 g)
  | Color g => Color (fill inside color g)
  end.

(** [cv.rectangle(img, pt1, pt2, color, thickness=cv.FILLED)], in place. *)
Definition cv_rectangle (img : pyval) (pt1 pt2 : Z * Z) (color : rgb) : M unit :=
  l ← cv_arg img;
  a ← read l;
  write l (paint (in_rect pt1.1 pt1.2 pt2.1 pt2.2) color a).

(** [cv.circle(img, center, radius, color, thickness)], in place: the
    pixels the rasterised circle covers take the colour (its first
    component on a single-channel image).  The centre and the radius are
    integer arguments; the library asserts a radius that is not
    negative. *)
Definition cv_circle (img : pyval) (center : num * num) (radius : num)
    (color : rgb) (thickness : Z) : M unit :=
  match c_int center.1, c_int center.2, c_int radius with
  | Some x, Some y, Some r =>
      if r <? 0 then raise CvError
      else
        l ← cv_arg img;
        a ← read l;
        write l (paint (circle_covers (x, y) r thickness) color a)
  | _, _, _ => raise CvError
  end.

(** [cv.HoughCircles(img, cv.HOUGH_GRADIENT, DP, MD, param1=P1, param2=P2,
    minRadius=MIN_R, maxRadius=MAX_R)]: the globals are read at the call;
    the library asserts a single 8-bit channel, and the transform answers
    with its error, with its array or with [None]. *)
Definition cv_HoughCircles (img : pyval)
    : M (option (list (list (Q * Q * Q)))) :=
  l ← cv_arg img;
  p ← get_globals;
  a ← read l;
  match a with
  | Gray g => lift (HoughCircles_px g p)
  | Color _ => raise CvError
  end.

(** [cv.cvtColor(src, cv.COLOR_GRAY2RGB)]: a new array with the grey value
    in each channel; the library asserts a single channel. *)
Definition cv_cvtColor_GRAY2RGB (src : pyval) : M pyval :=
  l ← cv_arg src;
  a ← read l;
  match a with
  | Gray g => out ← alloc (Color (map (map (λ p, (p, p, p))) g)); mret (Some out)
  | Color _ => raise CvError
  end.

(** [img.copy()]. *)
Definition np_copy (img : pyval) : M pyval :=
  match img with
  | Some l => a ← read l; out ← alloc a; mret (Some out)
  | None => raise AttributeError
  end.

(** [np.zeros((h, w), dtype=np.uint8)]. *)
Definition np_zeros (h w : Z) : M pyval :=
  out ← alloc (Gray (zeros h w)); mret (Some out).

(** [img[r0:r1, c0:c1]], read at once ([None] cannot be subscripted). *)
Definition np_getslice (img : pyval) (r0 r1 c0 c1 : Z) : M ndarray :=
  match img with
  | Some l =>
      a ← read l;
      mret (match a with
            | Gray g => Gray (slice2 g r0 r1 c0 c1)
            | Color g => Color (slice2 g r0 r1 c0 c1)
            end)
  | None => raise TypeError
  end.

(** [dst[r0:r1, c0:c1] = v], in place; a value that cannot be broadcast to
    the window (a three-channel value among them) is a [ValueError]. *)
Definition np_setslice (dst : pyval) (r0 r1 c0 c1 : Z) (v : ndarray) : M unit :=
  match dst with
  | Some l =>
      a ← read l;
      match a, v with
      | Gray g, Gray vg =>
          match setslice2 g r0 r1 c0 c1 vg with
          | Some g' => write l (Gray g')
          | None => raise ValueError
          end
      | _, _ => raise ValueError
      end
  | None => raise TypeError
  end.

(** [cv.boundingRect] of a single-channel image: the smallest upright
    rectangle (x, y, width, height) that holds every non-zero pixel, and
    (0, 0, 0, 0) when there is none. *)
Fixpoint nonzero_from (c : nat) (row : list Z) : list nat :=
  match row with
  | [] => []
  | p :: row' =>
      if p =? 0 then nonzero_from (S c) row'
      else c :: nonzero_from (S c) row'
  end.

(** The (row, column) positions of the non-zero pixels, rows counted from
    [r]. *)
Fixpoint nonzero_coords (r : nat) (g : gray_px) : list (nat * nat) :=
  match g with
  | [] => []
  | row :: g' => map (pair r) (nonzero_from 0 row) ++ nonzero_coords (S r) g'
  end.

Definition boundingRect_px (g : gray_px) : Z * Z * Z * Z :=
  match nonzero_coords 0 g with
  | [] => (0, 0, 0, 0)
  | (r0, c0) :: rest =>
      let xmin := foldr Nat.min c0 (snd <$> rest) in
      let xmax := foldr Nat.max c0 (snd <$> rest) in
      let ymin := foldr Nat.min r0 (fst <$> rest) in
      let ymax := foldr Nat.max r0 (fst <$> rest) in
      (Z.of_nat xmin, Z.of_nat ymin,
       Z.of_nat xmax - Z.of_nat xmin + 1,
       Z.of_nat ymax - Z.of_nat ymin + 1)
  end.

(** On [None], an empty matrix to the library, the rectangle is
    (0, 0, 0, 0) as well. *)
Definition cv_boundingRect (img : pyval) : M (Z * Z * Z * Z) :=
  match img with
  | Some l =>
      a ← read l;
      match a with
      | Gray g => mret (boundingRect_px g)
      | Color _ => raise CvError
      end
  | None => mret (0, 0, 0, 0)
  end.

(** [cv.erode(img, np.ones((3, 3), np.uint8))] and [cv.dilate]: new
    arrays. *)
Definition cv_morph (op : gray_px → gray_px) (img : pyval) : M pyval :=
  l ← cv_arg img;
  a ← read l;
  match a with
  | Gray g => out ← alloc (Gray (op g)); mret (Some out)
  | Color _ => raise CvError
  end.

(** A window receives an image. *)
Definition display (window : string) (a : ndarray) : M unit := λ w,
  (Ok tt, add_shown window a w).

(** [cv.imshow(window, img)]: the window receives the image as it is at the
    call.  ([cv.namedWindow] and [cv.createTrackbar] only set the windows
    up, and [cv.waitKey(0)] waits; they leave the world as it is.) *)
Definition cv_imshow (window : string) (img : pyval) : M unit :=
  l ← cv_arg img;
  a ← read l;
  display window a.

(** *** Loader (lines 84-107) *)

(** [float(STD_RES) / n] for an integer [n]. *)
Definition py_div (x : float) (n : Z) : M float :=
  if n =? 0 then raise ZeroDivisionError
  else mret (fdiv x (float_of_int n)).

Definition load_image (path : string) (grayscale equalize resize : bool)
    : M pyval :=
  img_in ← cv_imread path grayscale;
  _ ← (if equalize then cv_equalizeHist img_in img_in else mret tt);
  img_in ← (if resize then
              sh ← get_shape img_in;
              h ← py_index sh 0;
              ratio ← py_div (float_of_int STD_RES) h;
              cv_resize_scale img_in ratio ratio
            else mret img_in);
  mret img_in.

(** *** Circle detector (lines 116-152) *)

(** [int(h / 2)]: halving, then truncation. *)
Definition half (h : Z) : Z := Z.quot h 2.

Definition hough_circles (img : pyval) : M (list circle) :=
  sh ← get_shape img;
  '(h, w) ← unpack2 sh;
  let half_h := half h in
  let half_w := half w in
  _ ← cv_rectangle img (0, 0) (half_w, h) (0, 0, 0);
  _ ← cv_rectangle img (0, h) (w, half_h) (0, 0, 0);
  circles ← cv_HoughCircles img;
  match circles with
  | Some circles =>
      circles ← py_index circles 0;
      mret (foldl (λ output c,
                     output ++ [(Float32 c.1.1, Float32 c.1.2, Float32 c.2)])
                  [] (py_slice circles 0 (Z.of_nat (length circles))))
  | None => mret []
  end.

(** *** Bounding-box normaliser (lines 155-187) *)

(** [int(math.floor(d / 2.0))]: halving a machine-sized integer is exact in
    double precision, so this is the floor of the exact half. *)
Definition floor_half (d : Z) : Z := d / 2.

(** The function ends without a [return]: its value is [None]. *)
Definition bb_resize (img : pyval) : M pyval :=
  img_thresh ← threshold img;
  '(x, y, w, h) ← cv_boundingRect img_thresh;
  let max_wh := Z.max w h in
  img_expand ← np_zeros max_wh max_wh;
  let diff_w := max_wh - w in
  let diff_h := max_wh - h in
  let half_dw := floor_half diff_w in
  let half_dh := floor_half diff_h in
  roi ← np_getslice img y (y + h) x (x + w);
  _ ← np_setslice img_expand half_dh (half_dh + h) half_dw (half_dw + w) roi;
  img_resize ← cv_resize_dsize img_expand STD_RES STD_RES;
  mret None.

(** *** Circle overlay (lines 190-206) *)

Definition draw_hough_circles (img : pyval) (circles : list circle)
    : M pyval :=
  if bool_decide (circles ≠ []) then
    cp ← np_copy img;
    output ← cv_cvtColor_GRAY2RGB cp;
    _ ← for_each circles (λ c,
          let '(x, y, r) := c in
          cv_circle output (x, y) r (0, 0, 255) 2);
    mret output
  else
    mret img.

(** *** Notch detection experiment (lines 298-355) *)

Definition notch_blob_params : blob_params :=
  {| minThreshold := 0;
     maxThreshold := inject_Z THRESH;
     thresholdStep := inject_Z THRESH / 2;
     filterByArea := false;
     filterByColor := false;
     filterByConvexity := false;
     minInertiaRatio := 5 # 100;
     maxInertiaRatio := 1 |}.

(** [sbd.detect(img)]. *)
Definition sbd_detect (p : blob_params) (img : pyval) : M (list keypoint) :=
  l ← cv_arg img;
  a ← read l;
  match a with
  | Gray g => mret (blob_detect p g)
  | Color _ => raise CvError
  end.

(** [cv.drawKeypoints(img, keypoints, np.array([]), color, flags)]: a new
    three-channel array. *)
Definition cv_drawKeypoints (img : pyval) (kps : list keypoint) (color : rgb)
    : M pyval :=
  l ← cv_arg img;
  a ← read l;
  match a with
  | Gray g => out ← alloc (Color (drawKeypoints_px g kps color)); mret (Some out)
  | Color _ => raise CvError
  end.

(** The windows are created, the two images are shown and the function
    waits for a key; it returns [None]. *)
Definition experiment_notch_detection (path : string) : M pyval :=
  img ← load_image path true false true;
  img_thresh ← threshold img;
  circles ← hough_circles img;
  '(x, y, r) ← py_index circles 0;
  _ ← cv_circle img_thresh (x, y) r (0, 0, 0) FILLED;
  sh ← get_shape img_thresh;
  '(h, w) ← unpack2 sh;
  let half_h := half h in
  let half_w := half w in
  _ ← cv_rectangle img_thresh (0, 0) (half_w, h) (0, 0, 0);
  _ ← cv_rectangle img_thresh (0, h) (w, half_h) (0, 0, 0);
  img_thresh ← cv_morph erode_px img_thresh;
  img_thresh ← cv_morph dilate_px img_thresh;
  keypoints ← sbd_detect notch_blob_params img_thresh;
  img_thresh ← cv_drawKeypoints img_thresh keypoints (0, 0, 255);
  _ ← cv_imshow "Original Image" img;
  _ ← cv_imshow "Thresholded, Subtracted, Blob-Detected" img_thresh;
  mret None.

(** *** Bounding-box experiment (lines 358-383) *)

Definition experiment_bounding_box (path : string) : M pyval :=
  img ← load_image path true false false;
  img_thresh ← threshold img;
  '(x, y, w, h) ← cv_boundingRect img_thresh;
  let max_wh := Z.max w h in
  let diff_w := max_wh - w in
  let diff_h := max_wh - h in
  let half_dw := floor_half diff_w in
  let half_dh := floor_half diff_h in
  img_expand ← np_zeros max_wh max_wh;
  roi ← np_getslice img y (y + h) x (x + w);
  _ ← np_setslice img_expand half_dh (half_dh + h) half_dw (half_dw + w) roi;
  img_resize ← cv_resize_dsize img_expand STD_RES STD_RES;
  _ ← cv_imshow "Resized Image" img_resize;
  mret None.

End Preprocessing.

(** ** The interactive experiments and the driver *)

(** The experiments end in [cv.waitKey(0)], which runs the event loop of the
    windows; the slider moves the user makes meanwhile are an input of the
    model, and each one calls the callback of its slider. *)
Inductive hough_event : Type :=
  | DP_slider (pos : Z)
  | P1_slider (pos : Z)
  | P2_slider (pos : Z).

(** The assignment [global DP; DP = pos] of a callback, and those to P1 and
    P2. *)
Definition set_slider (p : params) (e : hough_event) : params :=
  match e with
  | DP_slider pos =>
      {| DP := pos; MD := MD p; P1 := P1 p; P2 := P2 p;
         MIN_R := MIN_R p; MAX_R := MAX_R p;
         LOW_THRESH := LOW_THRESH p; MAX_THRESH := MAX_THRESH p |}
  | P1_slider pos =>
      {| DP := DP p; MD := MD p; P1 := pos; P2 := P2 p;
         MIN_R := MIN_R p; MAX_R := MAX_R p;
         LOW_THRESH := LOW_THRESH p; MAX_THRESH := MAX_THRESH p |}
  | P2_slider pos =>
      {| DP := DP p; MD := MD p; P1 := P1 p; P2 := pos;
         MIN_R := MIN_R p; MAX_R := MAX_R p;
         LOW_THRESH := LOW_THRESH p; MAX_THRESH := MAX_THRESH p |}
  end.


Definition same_shape (a b : ndarray) : bool :=
  bool_decide (shape a = shape b).

Section Experiments.

Context {cv : OpenCV} {fl : FloatOps}.

(** [cv.threshold(src, thresh, maxval, cv.THRESH_BINARY, dst=dst)]: the
    result is written into [dst] when it has the shape of the source, and
    into a new array otherwise ([dst=None] is the call without [dst]). *)
Definition cv_threshold_dst (src : pyval) (thresh maxval : Z) (dst : pyval)
    : M pyval :=
  match src, dst with
  | Some l, Some d =>
      a ← read l;
      old ← read d;
      if same_shape a old then
        _ ← write d (cv_threshold_px thresh maxval a); mret (Some d)
      else
        out ← alloc (cv_threshold_px thresh maxval a); mret (Some out)
  | _, _ => cv_threshold src thresh maxval
  end.

(** [cv.Canny(img, low, high, apertureSize=aperture)]: a new array. *)
Definition cv_Canny (img : pyval) (low high aperture : Z) : M pyval :=
  l ← cv_arg img;
  a ← read l;
  match a with
  | Gray g => out ← alloc (Gray (Canny_px g low high aperture)); mret (Some out)
  | Color _ => raise CvError
  end.

(** *** Threshold experiment (lines 209-234) *)

Definition experiment_threshold (path : string) (events : list Z) : M pyval :=
  img ← load_image path true false true;
  thresh_img ← cv_threshold img THRESH 255;
  let thresh_callback (pos : Z) : M unit :=
    _ ← cv_threshold_dst img pos 255 thresh_img;
    cv_imshow "Threshold Experiment" thresh_img in
  _ ← cv_imshow "Threshold Experiment" thresh_img;
  _ ← cv_imshow "Original Image" img;
  _ ← for_each events thresh_callback;
  mret None.

(** *** Hough experiment (lines 237-273) *)

(** [cv.imshow(t_window, draw_hough_circles(img, hough_circles(img)))]: the
    arguments are evaluated from left to right, the detector runs before
    the overlay is drawn. *)
Definition show_hough (img : pyval) : M unit :=
  circles ← hough_circles img;
  overlay ← draw_hough_circles img circles;
  cv_imshow "Hough Circle Transform Experiment" overlay.

(** [dp_callback], [p1_callback] and [p2_callback]: the global of the
    slider is assigned, then the view is computed again. *)
Definition hough_callback (img : pyval) (e : hough_event) : M unit :=
  p ← get_globals;
  _ ← put_globals (set_slider p e);
  show_hough img.

Definition experiment_hough (path : string) (events : list hough_event)
    : M pyval :=
  img ← load_image path true false true;
  _ ← show_hough img;
  _ ← for_each events (hough_callback img);
  mret None.

(** *** Edge detection experiment (lines 276-295) *)

Definition experiment_edge_detect (path : string) (events : list Z)
    : M pyval :=
  img ← load_image path true false true;
  img ← threshold img;
  p ← get_globals;
  edges ← cv_Canny img (LOW_THRESH p) (MAX_THRESH p) KERNEL;
  let low_thresh_callback (pos : Z) : M unit :=
    p ← get_globals;
    _ ← put_globals
          {| DP := DP p; MD := MD p; P1 := P1 p; P2 := P2 p;
             MIN_R := MIN_R p; MAX_R := MAX_R p;
             LOW_THRESH := pos; MAX_THRESH := MAX_THRESH p |};
    p ← get_globals;
    edges ← cv_Canny img (LOW_THRESH p) (MAX_THRESH p) KERNEL;
    cv_imshow "Canny Edge Detect Experiment" edges in
  _ ← cv_imshow "Canny Edge Detect Experiment" edges;
  _ ← for_each events low_thresh_callback;
  mret None.

(** *** Driver (lines 386-399) *)

(** [listing] is what [os.listdir("data/train")] returns. *)
Definition main (listing : list string) : M unit :=
  for_each listing (λ file_path,
    let path := "data/train" +:+ "/" +:+ file_path in
    _ ← experiment_bounding_box path;
    mret tt).

End Experiments.

(** ** Derived notions used in the statements *)

(** The image [hough_circles] hands to the Hough transform: the input
    after the two filled rectangles. *)
Definition masked (g : gray_px) : gray_px :=
  fill (in_rect 0 (rows g) (cols g) (half (rows g))) 0
    (fill (in_rect 0 0 (half (cols g)) (rows g)) 0 g).


Definition float32_circle (c : Q * Q * Q) : circle :=
  (Float32 c.1.1, Float32 c.1.2, Float32 c.2).


(** The pixel at image coordinates (x, y): column [x] of row [y]. *)
Definition at_xy {A} (g : list (list A)) (x y : Z) : option A :=
  if (0 <=? x) && (0 <=? y) then pixel g (Z.to_nat y) (Z.to_nat x) else None.

(** The square canvas of the bounding-box normaliser as a function of the
    input pixels (lines 168-182 without the store); [None] when the copy
    would be rejected. *)
Definition bb_canvas (g : gray_px) : option gray_px :=
  let '(x, y, w, h) := boundingRect_px (map (map (thresh_binary THRESH 255)) g) in
  let max_wh := Z.max w h in
  setslice2 (zeros max_wh max_wh)
    (floor_half (max_wh - h)) (floor_half (max_wh - h) + h)
    (floor_half (max_wh - w)) (floor_half (max_wh - w) + w)
    (slice2 g y (y + h) x (x + w)).

(** The array [cv.equalizeHist] leaves in place of a single-channel
    one. *)
Definition equalized `{OpenCV} (a : ndarray) : ndarray :=
  match a with
  | Gray g => Gray (map (map (equalize_lut g)) g)
  | Color c => Color c
  end.

(** Some pixel of the image is above the cutoff. *)
Definition has_bright_pixel (g : gray_px) : Prop :=
  ∃ r c p, pixel g r c = Some p ∧ THRESH < p.

(** A file of the training directory that the bounding-box experiment can
    process: it decodes to a rectangular single-channel image with a pixel
    above the cutoff. *)
Definition usable_file `{OpenCV} (file_path : string) : Prop :=
  ∃ g, imread_file ("data/train" +:+ "/" +:+ file_path) true = Some (Gray g) ∧
       rect g ∧ has_bright_pixel g.

(** An image shown by the bounding-box experiment. *)
Definition resized_view (v : string * ndarray) : Prop :=
  v.1 = "Resized Image" ∧ height v.2 = STD_RES ∧ width v.2 = STD_RES.

(** The view the bounding-box experiment computes from a file of the
    training directory: the canvas of the decoded image, resized. *)
Definition bounding_box_view `{OpenCV} (file_path : string)
    : option (string * ndarray) :=
  match imread_file ("data/train" +:+ "/" +:+ file_path) true with
  | Some (Gray g) =>
      canvas ← bb_canvas g;
      Some ("Resized Image", resize_px (Gray canvas) STD_RES STD_RES)
  | _ => None
  end.

(** The values of the globals after each slider move. *)
Fixpoint slider_states (p : params) (events : list hough_event) : list params :=
  match events with
  | [] => []
  | e :: events' => set_slider p e :: slider_states (set_slider p e) events'
  end.

(** ** Concrete inputs *)

(** A world whose store holds one array, at reference 1. *)
Definition one_image (a : ndarray) : world :=
  set_heap {[ 1%positive := a ]} empty_world.

(** Nearest-neighbour sampling, a stand-in for the library's
    interpolation where a concrete run needs one. *)
Definition nearest {A} (d : A) (src : list (list A)) (dw dh : Z)
    (r c : nat) : A :=
  default d (pixel src (Z.to_nat (Z.of_nat r * rows src / dh))
                       (Z.to_nat (Z.of_nat c * cols src / dw))).

(** A library for concrete runs: [files] is the content of the disk and
    [hough] the answer of the Hough transform on arguments it accepts;
    circles are rasterised as discs, the remaining operations leave the
    pixels as they are and no blob is found. *)
Definition test_cv (files : string → bool → option ndarray)
    (hough : gray_px → params → option (list (list (Q * Q * Q)))) : OpenCV :=
  {| keypoint := unit;
     imread_file := files;
     equalize_lut := λ _ p, p;
     inter_area_gray := nearest 0;
     inter_area_color := nearest (0, 0, 0);
     HoughCircles_px := λ g p,
       if (rows g =? 0) || (cols g =? 0) || (DP p <=? 0) || (MD p <=? 0)
          || (P1 p <=? 0) || (P2 p <=? 0)
       then Raise CvError else Ok (hough g p);
     circle_covers := λ '(x, y) rad _ r c,
       bool_decide ((Z.of_nat c - x) ^ 2 + (Z.of_nat r - y) ^ 2 <= rad ^ 2);
     erode_px := λ g, g;
     dilate_px := λ g, g;
     blob_detect := λ _ _, [];
     drawKeypoints_px := λ g _ _, map (map (λ p, (p, p, p))) g;
     Canny_px := λ g _ _ _, g |}.

(** A disk for concrete runs of the driver: two usable files and one
    without a pixel above the cutoff. *)
Definition sample_disk (path : string) (grayscale : bool) : option ndarray :=
  if String.eqb path "data/train/a.jpeg" then Some (Gray [[0; 40]; [0; 0]])
  else if String.eqb path "data/train/b.jpeg" then Some (Gray [[0; 0]; [0; 0]])
  else if String.eqb path "data/train/c.jpeg" then Some (Gray [[99]])
  else None.

(** * Properties *)

(** [lia] with division and remainder by constants. *)
Ltac Zify.zify_post_hook ::= Z.to_euclidean_division_equations.

(** ** Running computations *)

Lemma bind_ok {A B} (m : M A) (f : A → M B) w a w' :
  m w = (Ok a, w') → (m ≫= f) w = f a w'.
Proof. intros E. unfold mbind, M_bind. by rewrite E. Qed.

Lemma bind_raise {A B} (m : M A) (f : A → M B) w e w' :
  m w = (Raise e, w') → (m ≫= f) w = (Raise e, w').
Proof. intros E. unfold mbind, M_bind. by rewrite E. Qed.

Lemma read_ok l a w : heap w !! l = Some a → read l w = (Ok a, w).
Proof. intros E. unfold read. by rewrite E. Qed.

Lemma fresh_heap_None (h : gmap positive ndarray) : h !! fresh (dom h) = None.
Proof. apply not_elem_of_dom, is_fresh. Qed.

Lemma fresh_heap_ne (h : gmap positive ndarray) l a :
  h !! l = Some a → fresh (dom h) ≠ l.
Proof. intros E Heq. rewrite <- Heq, fresh_heap_None in E. discriminate. Qed.

Lemma for_each_app {A} (l1 l2 : list A) (body : A → M unit) w :
  for_each (l1 ++ l2) body w
  = (for_each l1 body ≫= λ _, for_each l2 body) w.
Proof.
  revert w. induction l1 as [|x l1 IH]; intros w; simpl; [reflexivity|].
  unfold mbind, M_bind in *.
  destruct (body x w) as [[[]|e] w1]; [apply IH|reflexivity].
Qed.

(** Pixels of an image mapped pixel by pixel. *)
Lemma pixel_map {A B} (f : A → B) (g : list (list A)) r c :
  pixel (map (map f) g) r c = f <$> pixel g r c.
Proof.
  unfold pixel. rewrite list_lookup_fmap.
  destruct (g !! r) as [row|]; simpl; [|done].
  apply list_lookup_fmap.
Qed.

Lemma rows_map {A B} (f : list A → list B) (g : list (list A)) :
  rows (map f g) = rows g.
Proof. unfold rows. by rewrite length_map. Qed.

Lemma cols_map {A B} (f : A → B) (g : list (list A)) :
  cols (map (map f) g) = cols g.
Proof. destruct g; simpl; [done|]. by rewrite length_map. Qed.

(** ** Thresholder *)

(** Lookups in a store after allocations and updates. *)
Ltac heap_lookup :=
  cbn [heap set_heap set_globals add_shown];
  repeat first
    [ eassumption
    | apply fresh_heap_None
    | apply lookup_insert_eq
    | rewrite lookup_insert_ne by
        first [ done
              | eapply fresh_heap_ne; heap_lookup
              | apply not_eq_sym; eapply fresh_heap_ne; heap_lookup ] ].

Create HintDb run discriminated.

(** Symbolic execution of a computation in a given world: binds are taken
    one at a time, primitive steps are evaluated, reads are looked up, and
    calls to functions with a lemma in [run] use that lemma. *)
#[global] Hint Extern 1 (_ !! _ = Some _) => solve [heap_lookup] : run.

Ltac run_leaf :=
  first [ apply read_ok; solve [heap_lookup]
        | solve [eauto 3 with run]
        | reflexivity ].

Ltac run :=
  lazymatch goal with
  | |- (?m ≫= ?f) ?w = _ =>
      first [ erewrite bind_ok by run; cbv beta iota; run
            | erewrite bind_raise by run; reflexivity ]
  | |- _ => run_leaf
  end.

(** What [threshold] does to the store: one new array, nothing else
    touched. *)
Lemma threshold_run w l a :
  heap w !! l = Some a →
  threshold (Some l) w =
    (Ok (Some (fresh (dom (heap w)))),
     set_heap (<[fresh (dom (heap w)) := cv_threshold_px THRESH 255 a]> (heap w)) w).
Proof. intros E. unfold threshold, cv_threshold. run. Qed.
#[global] Hint Resolve threshold_run : run.

(** C2, as the code has it: the thresholder returns a new binary image of
    the same shape in which a pixel is 255 where the input is strictly above
    the cutoff (30) and 0 elsewhere, a pixel equal to the cutoff included;
    the input image is left as it was. *)
Theorem threshold_strictly_above (w : world) (l : loc) (g : gray_px) :
  heap w !! l = Some (Gray g) →
  ∃ (l' : loc) (w' : world) (g' : gray_px),
    threshold (Some l) w = (Ok (Some l'), w') ∧
    heap w !! l' = None ∧
    heap w' !! l' = Some (Gray g') ∧
    heap w' !! l = Some (Gray g) ∧
    rows g' = rows g ∧ cols g' = cols g ∧
    ∀ r c, pixel g' r c =
           (λ p, if THRESH <? p then 255 else 0) <$> pixel g r c.
Proof.
  intros E. eexists _, _, _. split; [by apply threshold_run|].
  simpl. split; [apply fresh_heap_None|].
  split; [apply lookup_insert_eq|].
  split; [rewrite lookup_insert_ne; [done|by eapply fresh_heap_ne]|].
  split; [apply rows_map|]. split; [apply cols_map|].
  intros r c. apply pixel_map.
Qed.

Lemma threshold_strictly_above_witness :
  ∃ (l' : loc) (w' : world) (g' : gray_px),
    threshold (Some 1%positive) (one_image (Gray [[0; 30]; [31; 255]]))
      = (Ok (Some l'), w') ∧
    heap (one_image (Gray [[0; 30]; [31; 255]])) !! l' = None ∧
    heap w' !! l' = Some (Gray g') ∧
    heap w' !! 1%positive = Some (Gray [[0; 30]; [31; 255]]) ∧
    rows g' = rows [[0; 30]; [31; 255]] ∧ cols g' = cols [[0; 30]; [31; 255]] ∧
    ∀ r c, pixel g' r c =
           (λ p, if THRESH <? p then 255 else 0)
             <$> pixel [[0; 30]; [31; 255]] r c.
Proof.
  apply (threshold_strictly_above
           (one_image (Gray [[0; 30]; [31; 255]])) 1%positive).
  vm_compute. reflexivity.
Defined.

(** C2, as stated, fails: a pixel exactly at the cutoff becomes 0, not
    255. *)
Lemma threshold_at_cutoff_counterexample :
  ¬ (∀ (w : world) (l : loc) (g : gray_px),
       heap w !! l = Some (Gray g) →
       ∃ g', result_array (threshold (Some l) w) = Some (Gray g') ∧
             ∀ r c p, pixel g r c = Some p →
                      pixel g' r c = Some (if THRESH <=? p then 255 else 0)).
Proof.
  intros H.
  destruct (H (one_image (Gray [[30]])) 1%positive [[30]] eq_refl)
    as (g' & Hres & Hpx).
  vm_compute in Hres. injection Hres as <-.
  specialize (Hpx 0%nat 0%nat 30 eq_refl). vm_compute in Hpx. discriminate.
Qed.

Lemma thresh_binary_idem p :
  thresh_binary THRESH 255 (thresh_binary THRESH 255 p) = thresh_binary THRESH 255 p.
Proof. unfold thresh_binary, THRESH. destruct (30 <? p); reflexivity. Qed.

Lemma cv_threshold_px_idem a :
  cv_threshold_px THRESH 255 (cv_threshold_px THRESH 255 a)
  = cv_threshold_px THRESH 255 a.
Proof.
  destruct a as [g|g]; simpl; f_equal; rewrite map_map;
    apply map_ext; intros row; rewrite map_map; apply map_ext.
  - apply thresh_binary_idem.
  - intros [[c0 c1] c2]. by rewrite !thresh_binary_idem.
Qed.

(** C3: thresholding the thresholded image gives the same image as
    thresholding once. *)
Theorem threshold_idempotent (w : world) (l : loc) (g : gray_px) :
  heap w !! l = Some (Gray g) →
  result_array ((threshold (Some l) ≫= threshold) w)
  = result_array (threshold (Some l) w).
Proof.
  intros E.
  erewrite bind_ok by (by apply threshold_run).
  erewrite threshold_run by heap_lookup.
  erewrite threshold_run by eassumption.
  unfold result_array. cbn [heap set_heap].
  rewrite !lookup_insert_eq. f_equal. apply (cv_threshold_px_idem (Gray g)).
Qed.

Lemma threshold_idempotent_witness :
  result_array ((threshold (Some 1%positive) ≫= threshold)
                  (one_image (Gray [[0; 30]; [31; 255]])))
  = result_array (threshold (Some 1%positive)
                    (one_image (Gray [[0; 30]; [31; 255]]))).
Proof.
  apply (threshold_idempotent _ 1%positive [[0; 30]; [31; 255]]).
  vm_compute. reflexivity.
Defined.

(** ** Circle detector *)

(** Execution up to the first step that is stuck. *)
Ltac run_steps := repeat (erewrite bind_ok by run; cbv beta iota).

Lemma py_slice_all {A} (l : list A) : py_slice l 0 (Z.of_nat (length l)) = l.
Proof.
  unfold py_slice.
  assert (slice_bound (Z.of_nat (length l)) 0 = 0%nat) as ->.
  { unfold slice_bound. change (0 <? 0) with false. lia. }
  assert (slice_bound (Z.of_nat (length l)) (Z.of_nat (length l)) = length l) as ->.
  { unfold slice_bound. destruct (Z.ltb_spec (Z.of_nat (length l)) 0); lia. }
  rewrite Nat.sub_0_r. apply firstn_all.
Qed.

Lemma collect_triples (cs : list (Q * Q * Q)) (acc : list circle) :
  foldl (λ output c, output ++ [(Float32 c.1.1, Float32 c.1.2, Float32 c.2)])
        acc cs
  = acc ++ map float32_circle cs.
Proof.
  revert acc. induction cs as [|[[x y] r] cs IH]; intros acc; simpl.
  - by rewrite app_nil_r.
  - rewrite IH. by rewrite <- app_assoc.
Qed.

Section CircleDetector.

Context {cv : OpenCV}.

Lemma cv_HoughCircles_run w l g :
  heap w !! l = Some (Gray g) →
  cv_HoughCircles (Some l) w = (HoughCircles_px g (globals w), w).
Proof. intros E. unfold cv_HoughCircles, cv_arg. run_steps. reflexivity. Qed.

(** The whole of [hough_circles] on a single-channel image: the image is
    masked in place, and the answer of the transform on the masked image
    decides the result. *)
Lemma hough_circles_run w l g :
  heap w !! l = Some (Gray g) →
  hough_circles (Some l) w =
    (match HoughCircles_px (masked g) (globals w) with
     | Raise e => Raise e
     | Ok None => Ok []
     | Ok (Some []) => Raise IndexError
     | Ok (Some (cs :: _)) => Ok (map float32_circle cs)
     end,
     set_heap (<[l := Gray (masked g)]> (heap w)) w).
Proof.
  intros E. unfold hough_circles, get_shape, cv_rectangle, cv_arg.
  run_steps. simpl shape. cbv beta iota. run_steps.
  unfold mbind at 1, M_bind at 1.
  erewrite cv_HoughCircles_run by heap_lookup.
  cbn [fst snd paint heap set_heap globals set_globals].
  rewrite insert_insert_eq. fold (masked g).
  destruct (HoughCircles_px (masked g) (globals w)) as [[[|cs rest]|]|e]; simpl.
  - reflexivity.
  - unfold mbind, M_bind, mret, M_ret. simpl.
    by rewrite py_slice_all, collect_triples.
  - reflexivity.
  - reflexivity.
Qed.

End CircleDetector.

Lemma pixel_fill {A} (inside : nat → nat → bool) (v : A) g r c :
  pixel (fill inside v g) r c
  = (λ p, if inside r c then v else p) <$> pixel g r c.
Proof.
  unfold pixel, fill. rewrite list_lookup_imap.
  destruct (g !! r) as [row|]; simpl; [|done].
  apply list_lookup_imap.
Qed.

Lemma rows_fill {A} (inside : nat → nat → bool) (v : A) g :
  rows (fill inside v g) = rows g.
Proof. unfold rows, fill. by rewrite length_imap. Qed.

Lemma cols_fill {A} (inside : nat → nat → bool) (v : A) g :
  cols (fill inside v g) = cols g.
Proof. destruct g; simpl; [done|]. by rewrite length_imap. Qed.

(** A position that holds a pixel lies inside a rectangular image. *)
Lemma pixel_in_range {A} (g : list (list A)) r c p :
  rect g → pixel g r c = Some p →
  Z.of_nat r < rows g ∧ Z.of_nat c < cols g.
Proof.
  unfold pixel, rows. intros Hrect Hp.
  destruct (g !! r) as [row|] eqn:Hr; simpl in Hp; [|done].
  split.
  - apply lookup_lt_Some in Hr. lia.
  - apply lookup_lt_Some in Hp.
    unfold rect in Hrect. rewrite Forall_lookup in Hrect.
    specialize (Hrect _ _ Hr). simpl in Hrect. lia.
Qed.

Lemma half_nonneg h : 0 <= h → half h = h / 2.
Proof. intros. unfold half. by apply Z.quot_div_nonneg. Qed.

Lemma rows_nonneg {A} (g : list (list A)) : 0 <= rows g.
Proof. unfold rows. lia. Qed.

Lemma cols_nonneg {A} (g : list (list A)) : 0 <= cols g.
Proof. destruct g; simpl; lia. Qed.

(** The mask, pixel by pixel: the columns up to the middle one and the rows
    from the middle one on are blacked out; the rest is kept. *)
Lemma pixel_masked g r c p :
  rect g → pixel g r c = Some p →
  pixel (masked g) r c
  = Some (if (Z.of_nat c <=? cols g / 2) || (rows g / 2 <=? Z.of_nat r)
          then 0 else p).
Proof.
  intros Hrect Hp. destruct (pixel_in_range _ _ _ _ Hrect Hp) as [Hr Hc].
  unfold masked. rewrite !pixel_fill, Hp. simpl. f_equal.
  pose proof (rows_nonneg g). pose proof (cols_nonneg g).
  rewrite !half_nonneg by done.
  assert (0 <= rows g / 2 <= rows g) by (split; [apply Z.div_pos|apply Z.div_le_upper_bound]; lia).
  assert (0 <= cols g / 2 <= cols g) by (split; [apply Z.div_pos|apply Z.div_le_upper_bound]; lia).
  unfold in_rect.
  destruct (Z.leb_spec (Z.of_nat c) (cols g / 2)),
           (Z.leb_spec (rows g / 2) (Z.of_nat r)); simpl;
    repeat match goal with
           | |- context [?a <=? ?b] => destruct (Z.leb_spec a b); try lia; simpl
           end; reflexivity.
Qed.

Section CircleDetectorClaims.

Context {cv : OpenCV}.

(** C4, as the code has it: on an h-by-w image the masking step zeroes the
    pixels with x <= floor(w/2) over the full height and the pixels with
    y >= floor(h/2) over the full width, and leaves the others (x beyond the
    middle column, y above the middle row) as they were; the caller's array
    itself is changed, whatever the transform then returns, and no other
    array is. *)
Theorem hough_circles_masks_in_place (w : world) (l : loc) (g : gray_px) :
  rect g →
  heap w !! l = Some (Gray g) →
  ∃ g' : gray_px,
    heap (hough_circles (Some l) w).2 !! l = Some (Gray g') ∧
    rows g' = rows g ∧ cols g' = cols g ∧
    (∀ r c p, pixel g r c = Some p →
       pixel g' r c
       = Some (if (Z.of_nat c <=? cols g / 2) || (rows g / 2 <=? Z.of_nat r)
               then 0 else p)) ∧
    (∀ l', l' ≠ l → heap (hough_circles (Some l) w).2 !! l' = heap w !! l').
Proof.
  intros Hrect E. exists (masked g).
  rewrite (hough_circles_run _ _ _ E). cbn [snd heap set_heap].
  split; [apply lookup_insert_eq|].
  split; [unfold masked; by rewrite !rows_fill|].
  split; [unfold masked; by rewrite !cols_fill|].
  split; [intros r c p; by apply pixel_masked|].
  intros l' Hne. by rewrite lookup_insert_ne.
Qed.

(** C5: on a single-channel image, the detector returns the empty list when
    the transform reports no circle, and otherwise the circles of the
    transform's first (only) row, as triples of the transform's 32-bit
    floats, in the transform's order. *)
Theorem hough_circles_empty_or_ranked (w : world) (l : loc) (g : gray_px) :
  heap w !! l = Some (Gray g) →
  (HoughCircles_px (masked g) (globals w) = Ok None →
     (hough_circles (Some l) w).1 = Ok []) ∧
  (∀ cs rest, HoughCircles_px (masked g) (globals w) = Ok (Some (cs :: rest)) →
     (hough_circles (Some l) w).1
     = Ok (map (λ c, (Float32 c.1.1, Float32 c.1.2, Float32 c.2)) cs)).
Proof.
  intros E. rewrite (hough_circles_run _ _ _ E). cbn [fst].
  split; [intros -> | intros cs rest ->]; reflexivity.
Qed.

End CircleDetectorClaims.

Lemma hough_circles_masks_in_place_witness :
  ∃ g' : gray_px,
    heap (hough_circles (cv := test_cv (λ _ _, None) (λ _ _, None)) (Some 1%positive)
            (one_image (Gray [[9; 9; 9; 9]; [9; 9; 9; 9]; [9; 9; 9; 9]]))).2
      !! 1%positive = Some (Gray g') ∧
    pixel g' 0 3 = Some 9 ∧ pixel g' 0 2 = Some 0 ∧ pixel g' 1 3 = Some 0.
Proof.
  destruct (hough_circles_masks_in_place
              (cv := test_cv (λ _ _, None) (λ _ _, None))
              (one_image (Gray [[9; 9; 9; 9]; [9; 9; 9; 9]; [9; 9; 9; 9]]))
              1%positive [[9; 9; 9; 9]; [9; 9; 9; 9]; [9; 9; 9; 9]])
    as (g' & Hg' & _ & _ & Hpx & _).
  - repeat constructor.
  - vm_compute. reflexivity.
  - exists g'. split; [exact Hg'|].
    split; [exact (Hpx 0%nat 3%nat 9 eq_refl)|].
    split; [exact (Hpx 0%nat 2%nat 9 eq_refl)|exact (Hpx 1%nat 3%nat 9 eq_refl)].
Defined.

(** C4, as stated, fails.  On a 4-by-4 image of 255s the pixel (x, y) =
    (3, 3) does not have x < w/2 and is zeroed, so the zeroed set is not the
    left half (with its bottom quadrant); and the pixel (x, y) = (2, 0), in
    the top rows and not in the left half either, is zeroed as well, so the
    right half is not kept even above the middle row. *)
Lemma hough_circles_mask_counterexample :
  ∃ g' : gray_px,
    heap (hough_circles (cv := test_cv (λ _ _, None) (λ _ _, None))
            (Some 1%positive)
            (one_image (Gray (replicate 4 (replicate 4 255))))).2
      !! 1%positive = Some (Gray g') ∧
    pixel (replicate 4 (replicate 4 255)) 3 3 = Some 255 ∧
    ¬ (2 * 3 < cols (replicate 4 (replicate 4 255))) ∧
    pixel g' 3 3 = Some 0 ∧
    pixel (replicate 4 (replicate 4 255)) 0 2 = Some 255 ∧
    ¬ (2 * 2 < cols (replicate 4 (replicate 4 255))) ∧
    2 * 0 < rows (replicate 4 (replicate 4 255)) ∧
    pixel g' 0 2 = Some 0.
Proof.
  eexists. split; [vm_compute; reflexivity|].
  vm_compute. repeat split; congruence.
Qed.

Lemma hough_circles_empty_or_ranked_witness :
  (hough_circles (cv := test_cv (λ _ _, None) (λ _ _, None)) (Some 1%positive)
     (one_image (Gray [[9; 9]; [9; 9]]))).1 = Ok [] ∧
  (hough_circles
     (cv := test_cv (λ _ _, None)
              (λ _ _, Some [[(11 # 2, 6 # 1, 7 # 1); (1 # 1, 2 # 1, 3 # 1)]]))
     (Some 1%positive) (one_image (Gray [[9; 9]; [9; 9]]))).1
  = Ok [(Float32 (11 # 2), Float32 (6 # 1), Float32 (7 # 1));
        (Float32 (1 # 1), Float32 (2 # 1), Float32 (3 # 1))].
Proof.
  split.
  - apply (hough_circles_empty_or_ranked
             (cv := test_cv (λ _ _, None) (λ _ _, None))
             (one_image (Gray [[9; 9]; [9; 9]])) 1%positive [[9; 9]; [9; 9]]);
      reflexivity.
  - destruct (hough_circles_empty_or_ranked
                (cv := test_cv (λ _ _, None)
                         (λ _ _, Some [[(11 # 2, 6 # 1, 7 # 1); (1 # 1, 2 # 1, 3 # 1)]]))
                (one_image (Gray [[9; 9]; [9; 9]])) 1%positive [[9; 9]; [9; 9]]
                eq_refl) as [_ H].
    exact (H [(11 # 2, 6 # 1, 7 # 1); (1 # 1, 2 # 1, 3 # 1)] [] eq_refl).
Defined.

(** ** Circle overlay *)







Section Overlay.

Context {cv : OpenCV}.






End Overlay.



(** ** Bounding rectangle *)

Lemma nonzero_from_spec (row : list Z) :
  ∀ c0 c : nat,
    c ∈ nonzero_from c0 row ↔
    (c0 ≤ c)%nat ∧ ∃ p, row !! (c - c0)%nat = Some p ∧ p ≠ 0.
Proof.
  induction row as [|p row IH]; intros c0 c; simpl.
  - split; [by intros ?%elem_of_nil|]. by intros (_ & q & ? & _).
  - destruct (Z.eqb_spec p 0) as [->|Hp].
    + rewrite IH. split.
      * intros (Hle & q & Hq & Hq0). split; [lia|]. exists q. split; [|done].
        replace (c - c0)%nat with (S (c - S c0)) by lia. done.
      * intros (Hle & q & Hq & Hq0).
        destruct (decide (c = c0)) as [->|Hne].
        { rewrite Nat.sub_diag in Hq. simpl in Hq. congruence. }
        split; [lia|]. exists q. split; [|done].
        replace (c - c0)%nat with (S (c - S c0)) in Hq by lia. done.
    + rewrite elem_of_cons, IH. split.
      * intros [->|(Hle & q & Hq & Hq0)].
        { split; [lia|]. exists p. by rewrite Nat.sub_diag. }
        split; [lia|]. exists q. split; [|done].
        replace (c - c0)%nat with (S (c - S c0)) by lia. done.
      * intros (Hle & q & Hq & Hq0).
        destruct (decide (c = c0)) as [->|Hne]; [by left|right].
        split; [lia|]. exists q. split; [|done].
        replace (c - c0)%nat with (S (c - S c0)) in Hq by lia. done.
Qed.

Lemma nonzero_coords_spec (g : gray_px) :
  ∀ r0 r c : nat,
    (r, c) ∈ nonzero_coords r0 g ↔
    (r0 ≤ r)%nat ∧ ∃ p, pixel g (r - r0) c = Some p ∧ p ≠ 0.
Proof.
  induction g as [|row g IH]; intros r0 r c; simpl.
  - split; [by intros ?%elem_of_nil|]. by intros (_ & q & ? & _).
  - rewrite elem_of_app, list_elem_of_fmap, IH. split.
    + intros [(c' & [= -> ->] & Hc)|(Hle & q & Hq & Hq0)].
      * apply nonzero_from_spec in Hc as (_ & q & Hq & Hq0).
        split; [lia|]. exists q. rewrite Nat.sub_diag, Nat.sub_0_r in *. done.
      * split; [lia|]. exists q. split; [|done].
        replace (r - r0)%nat with (S (r - S r0)) by lia. done.
    + intros (Hle & q & Hq & Hq0).
      destruct (decide (r = r0)) as [->|Hne].
      * left. exists c. split; [done|]. apply nonzero_from_spec.
        split; [lia|]. exists q. rewrite Nat.sub_diag in Hq.
        rewrite Nat.sub_0_r. done.
      * right. split; [lia|]. exists q. split; [|done].
        replace (r - r0)%nat with (S (r - S r0)) in Hq by lia. done.
Qed.

Lemma foldr_min_elem (a : nat) (l : list nat) : foldr Nat.min a l ∈ a :: l.
Proof.
  induction l as [|x l IH]; simpl; [by left|].
  destruct (Nat.min_spec x (foldr Nat.min a l)) as [[_ ->]|[_ ->]].
  - right. by left.
  - apply elem_of_cons in IH as [->|IH]; [by left|by do 2 right].
Qed.

Lemma foldr_max_elem (a : nat) (l : list nat) : foldr Nat.max a l ∈ a :: l.
Proof.
  induction l as [|x l IH]; simpl; [by left|].
  destruct (Nat.max_spec x (foldr Nat.max a l)) as [[_ ->]|[_ ->]].
  - apply elem_of_cons in IH as [->|IH]; [by left|by do 2 right].
  - right. by left.
Qed.

Lemma foldr_min_le (a : nat) (l : list nat) (x : nat) :
  x ∈ a :: l → (foldr Nat.min a l ≤ x)%nat.
Proof.
  induction l as [|y l IH]; simpl.
  - intros ->%list_elem_of_singleton. done.
  - intros [Hx|[Hx|H]%elem_of_cons]%elem_of_cons.
    + assert (foldr Nat.min a l ≤ x)%nat by (apply IH, elem_of_cons; left; exact Hx). lia.
    + lia.
    + assert (foldr Nat.min a l ≤ x)%nat by (apply IH; by right). lia.
Qed.

Lemma foldr_max_ge (a : nat) (l : list nat) (x : nat) :
  x ∈ a :: l → (x ≤ foldr Nat.max a l)%nat.
Proof.
  induction l as [|y l IH]; simpl.
  - intros ->%list_elem_of_singleton. done.
  - intros [Hx|[Hx|H]%elem_of_cons]%elem_of_cons.
    + assert (x ≤ foldr Nat.max a l)%nat by (apply IH, elem_of_cons; left; exact Hx). lia.
    + lia.
    + assert (x ≤ foldr Nat.max a l)%nat by (apply IH; by right). lia.
Qed.

(** The bounding rectangle is either empty, when no pixel is non-zero, or
    spanned by extreme non-zero pixels and around every non-zero pixel. *)
Lemma boundingRect_px_cases (g : gray_px) :
  (nonzero_coords 0 g = [] ∧ boundingRect_px g = (0, 0, 0, 0)) ∨
  (∃ xmin xmax ymin ymax : nat,
     boundingRect_px g
     = (Z.of_nat xmin, Z.of_nat ymin,
        Z.of_nat xmax - Z.of_nat xmin + 1, Z.of_nat ymax - Z.of_nat ymin + 1) ∧
     (xmin ≤ xmax)%nat ∧ (ymin ≤ ymax)%nat ∧
     (∃ r, (r, xmin) ∈ nonzero_coords 0 g) ∧
     (∃ r, (r, xmax) ∈ nonzero_coords 0 g) ∧
     (∃ c, (ymin, c) ∈ nonzero_coords 0 g) ∧
     (∃ c, (ymax, c) ∈ nonzero_coords 0 g) ∧
     ∀ r c, (r, c) ∈ nonzero_coords 0 g →
            (xmin ≤ c ≤ xmax)%nat ∧ (ymin ≤ r ≤ ymax)%nat).
Proof.
  unfold boundingRect_px.
  destruct (nonzero_coords 0 g) as [|[r0 c0] rest] eqn:Hnz; [by left|right].
  set (xs := snd <$> rest). set (ys := fst <$> rest).
  exists (foldr Nat.min c0 xs), (foldr Nat.max c0 xs),
         (foldr Nat.min r0 ys), (foldr Nat.max r0 ys).
  assert (∀ c, c ∈ c0 :: xs → ∃ r, (r, c) ∈ (r0, c0) :: rest) as Hxs.
  { intros c [->|Hc]%elem_of_cons; [exists r0; by left|].
    apply list_elem_of_fmap in Hc as ([r c'] & -> & Hin). exists r. by right. }
  assert (∀ r, r ∈ r0 :: ys → ∃ c, (r, c) ∈ (r0, c0) :: rest) as Hys.
  { intros r [->|Hr]%elem_of_cons; [exists c0; by left|].
    apply list_elem_of_fmap in Hr as ([r' c] & -> & Hin). exists c. by right. }
  assert (∀ r c, (r, c) ∈ (r0, c0) :: rest → c ∈ c0 :: xs ∧ r ∈ r0 :: ys) as Hin.
  { intros r c [[= -> ->]|H]%elem_of_cons; [split; by left|].
    split; right.
    - apply list_elem_of_fmap. by exists (r, c).
    - apply list_elem_of_fmap. by exists (r, c). }
  split; [done|].
  split. { transitivity c0; [apply foldr_min_le|apply foldr_max_ge]; by left. }
  split. { transitivity r0; [apply foldr_min_le|apply foldr_max_ge]; by left. }
  split; [apply Hxs, foldr_min_elem|].
  split; [apply Hxs, foldr_max_elem|].
  split; [apply Hys, foldr_min_elem|].
  split; [apply Hys, foldr_max_elem|].
  intros r c [Hc Hr]%Hin.
  split; (split; [by apply foldr_min_le|by apply foldr_max_ge]).
Qed.

(** A non-empty bounding rectangle lies inside the image. *)
Lemma boundingRect_px_inside (g : gray_px) x y w h :
  rect g →
  boundingRect_px g = (x, y, w, h) →
  (x = 0 ∧ y = 0 ∧ w = 0 ∧ h = 0 ∧ nonzero_coords 0 g = []) ∨
  (0 <= x ∧ 0 <= y ∧ 0 < w ∧ 0 < h ∧ x + w <= cols g ∧ y + h <= rows g).
Proof.
  intros Hrect Hbb.
  destruct (boundingRect_px_cases g) as [[Hnz Hz]|Hcase].
  - left. rewrite Hz in Hbb. by injection Hbb as <- <- <- <-.
  - right.
    destruct Hcase as (xmin & xmax & ymin & ymax & Hr & Hx & Hy &
                       _ & [rx Hxmax] & _ & [cy Hymax] & _).
    rewrite Hr in Hbb. injection Hbb as <- <- <- <-.
    apply nonzero_coords_spec in Hxmax as (_ & p & Hp & _).
    apply nonzero_coords_spec in Hymax as (_ & q & Hq & _).
    rewrite Nat.sub_0_r in Hp, Hq.
    apply (pixel_in_range _ _ _ _ Hrect) in Hp as [_ Hc].
    apply (pixel_in_range _ _ _ _ Hrect) in Hq as [Hrw _].
    lia.
Qed.

Lemma rect_map {A B} (f : A → B) (g : list (list A)) :
  rect g → rect (map (map f) g).
Proof.
  unfold rect. rewrite cols_map. intros H.
  apply Forall_fmap. eapply Forall_impl; [exact H|].
  intros row Hrow. simpl. by rewrite length_map.
Qed.

(** ** Slices *)

Lemma slice_bound_in_range (len i : Z) :
  0 <= i <= len → slice_bound len i = Z.to_nat i.
Proof.
  intros H. unfold slice_bound.
  destruct (Z.ltb_spec i 0); [lia|]. f_equal. lia.
Qed.

Lemma py_slice_in_range {A} (l : list A) (i j : Z) :
  0 <= i → i <= j → j <= Z.of_nat (length l) →
  py_slice l i j = take (Z.to_nat (j - i)) (drop (Z.to_nat i) l).
Proof.
  intros Hi Hij Hj. unfold py_slice.
  rewrite !slice_bound_in_range by lia. f_equal. lia.
Qed.

(** A window of a rectangular image that lies inside it: its shape and its
    pixels. *)
Lemma slice2_inside {A} (g : list (list A)) (x y w h : Z) :
  rect g →
  0 <= x → 0 <= y → 0 <= w → 0 <= h → x + w <= cols g → y + h <= rows g →
  length (slice2 g y (y + h) x (x + w)) = Z.to_nat h ∧
  Forall (λ row, length row = Z.to_nat w) (slice2 g y (y + h) x (x + w)) ∧
  ∀ i j : nat, (i < Z.to_nat h)%nat → (j < Z.to_nat w)%nat →
    pixel (slice2 g y (y + h) x (x + w)) i j
    = pixel g (Z.to_nat y + i) (Z.to_nat x + j).
Proof.
  intros Hrect Hx Hy Hw Hh Hxw Hyh. unfold slice2, rows in *.
  rewrite py_slice_in_range by lia.
  replace (y + h - y) with h by lia.
  assert (∀ row, row ∈ take (Z.to_nat h) (drop (Z.to_nat y) g) →
            py_slice row x (x + w) = take (Z.to_nat w) (drop (Z.to_nat x) row)
            ∧ Z.of_nat (length row) = cols g) as Hrow.
  { intros row Hin.
    assert (row ∈ g) as Hg.
    { apply list_elem_of_lookup in Hin as [i Hi].
      apply lookup_take_Some in Hi as [Hi _]. rewrite lookup_drop in Hi.
      by eapply list_elem_of_lookup_2. }
    unfold rect in Hrect. rewrite Forall_forall in Hrect.
    specialize (Hrect row Hg). split; [|done].
    rewrite py_slice_in_range by lia. f_equal. lia. }
  split; [|split].
  - rewrite length_map, length_take, length_drop. lia.
  - apply Forall_fmap, Forall_forall. intros row Hin. unfold compose.
    destruct (Hrow row Hin) as [-> Hlen].
    rewrite length_take, length_drop. lia.
  - intros i j Hi Hj. unfold pixel.
    rewrite list_lookup_fmap, lookup_take_lt, lookup_drop by done.
    destruct (g !! (Z.to_nat y + i)%nat) as [row|] eqn:Hr; simpl; [|done].
    assert (row ∈ take (Z.to_nat h) (drop (Z.to_nat y) g)) as Hin.
    { apply list_elem_of_lookup. exists i.
      by rewrite lookup_take_lt, lookup_drop. }
    destruct (Hrow row Hin) as [-> _].
    by rewrite lookup_take_lt, lookup_drop.
Qed.

Lemma rows_zeros n : 0 <= n → rows (zeros n n) = n.
Proof. intros. unfold rows, zeros. rewrite length_replicate. lia. Qed.

Lemma cols_zeros n : 0 <= n → cols (zeros n n) = n.
Proof.
  intros. unfold zeros. destruct (Z.to_nat n) as [|k] eqn:Hk; simpl; [lia|].
  rewrite length_replicate. lia.
Qed.

Lemma pixel_zeros n (r c : nat) :
  (r < Z.to_nat n)%nat → (c < Z.to_nat n)%nat → pixel (zeros n n) r c = Some 0.
Proof.
  intros Hr Hc. unfold pixel, zeros.
  rewrite lookup_replicate_2 by done. simpl. by apply lookup_replicate_2.
Qed.

(** Writing a value of the window's own shape: nothing is broadcast, the
    window takes the value's pixels and the rest keeps its own. *)
Lemma setslice2_same_shape {A} (g v : list (list A)) (r0 r1 c0 c1 : Z) :
  0 <= r0 → r0 <= r1 → r1 <= rows g →
  0 <= c0 → c0 <= c1 → c1 <= cols g →
  length v = Z.to_nat (r1 - r0) →
  Forall (λ row, length row = Z.to_nat (c1 - c0)) v →
  setslice2 g r0 r1 c0 c1 v
  = Some (imap (λ r row,
            imap (λ c p,
              if bool_decide (Z.to_nat r0 ≤ r < Z.to_nat r1 ∧
                              Z.to_nat c0 ≤ c < Z.to_nat c1)%nat
              then default p (pixel v (r - Z.to_nat r0) (c - Z.to_nat c0))
              else p) row) g).
Proof.
  intros Hr0 Hr01 Hr1 Hc0 Hc01 Hc1 Hlen Hrows. unfold setslice2.
  rewrite !slice_bound_in_range by lia.
  assert (broadcast (Z.to_nat r1 - Z.to_nat r0) v = Some v) as ->.
  { unfold broadcast. rewrite decide_True; [done|lia]. }
  simpl.
  assert (mapM (broadcast (Z.to_nat c1 - Z.to_nat c0)) v = Some v) as ->.
  { apply mapM_Some, Forall_Forall2_diag.
    eapply Forall_impl; [exact Hrows|]. intros row Hrow. simpl in Hrow.
    unfold broadcast. rewrite decide_True; [done|lia]. }
  reflexivity.
Qed.

(** ** Library calls on the store *)

Lemma cv_boundingRect_run w l g :
  heap w !! l = Some (Gray g) →
  cv_boundingRect (Some l) w = (Ok (boundingRect_px g), w).
Proof. intros E. unfold cv_boundingRect. run. Qed.
#[global] Hint Resolve cv_boundingRect_run : run.

Lemma np_getslice_run w l g r0 r1 c0 c1 :
  heap w !! l = Some (Gray g) →
  np_getslice (Some l) r0 r1 c0 c1 w = (Ok (Gray (slice2 g r0 r1 c0 c1)), w).
Proof. intros E. unfold np_getslice. run. Qed.
#[global] Hint Resolve np_getslice_run : run.

Lemma np_setslice_run w l g r0 r1 c0 c1 v :
  heap w !! l = Some (Gray g) →
  np_setslice (Some l) r0 r1 c0 c1 (Gray v) w =
    match setslice2 g r0 r1 c0 c1 v with
    | Some g' => (Ok tt, set_heap (<[l := Gray g']> (heap w)) w)
    | None => (Raise ValueError, w)
    end.
Proof.
  intros E. unfold np_setslice.
  erewrite bind_ok by run. cbv beta iota.
  by destruct (setslice2 g r0 r1 c0 c1 v).
Qed.

Section Resize.

Context {cv : OpenCV}.

Lemma cv_resize_dsize_run w l a dw dh :
  heap w !! l = Some a →
  cv_resize_dsize (Some l) dw dh w =
    if is_empty a then (Raise CvError, w)
    else if (dw <=? 0) || (dh <=? 0) then (Raise CvError, w)
    else (Ok (Some (fresh (dom (heap w)))),
          set_heap (<[fresh (dom (heap w)) := resize_px a dw dh]> (heap w)) w).
Proof.
  intros E. unfold cv_resize_dsize, cv_arg, resize_to. run_steps.
  destruct (is_empty a); [reflexivity|].
  destruct ((dw <=? 0) || (dh <=? 0)); reflexivity.
Qed.

(** The bounding-box normaliser, step by step: the thresholded copy and the
    canvas are allocated one after the other, and the resize of the canvas
    decides the outcome. *)
Lemma bb_resize_run w l g :
  heap w !! l = Some (Gray g) →
  ∀ h1 h2 canvas,
    h1 = <[fresh (dom (heap w)) := Gray (map (map (thresh_binary THRESH 255)) g)]> (heap w) →
    bb_canvas g = Some canvas →
    h2 = <[fresh (dom h1) := Gray canvas]> h1 →
    bb_resize (Some l) w =
      if is_empty (Gray canvas) then (Raise CvError, set_heap h2 w)
      else (Ok None,
            set_heap (<[fresh (dom h2) := resize_px (Gray canvas) STD_RES STD_RES]> h2) w).
Proof.
  intros E h1 h2 canvas -> Hc ->. unfold bb_resize, bb_canvas in *.
  erewrite bind_ok by run. cbv beta iota.
  erewrite bind_ok by run. simpl cv_threshold_px.
  destruct (boundingRect_px (map (map (thresh_binary THRESH 255)) g))
    as [[[x y] bw] bh].
  cbv beta iota zeta. unfold np_zeros.
  erewrite bind_ok by run. cbv beta iota.
  erewrite bind_ok by run. cbv beta iota.
  erewrite bind_ok.
  2:{ erewrite np_setslice_run by heap_lookup. rewrite Hc. reflexivity. }
  cbn [heap set_heap]. rewrite insert_insert_eq.
  unfold mbind, M_bind. erewrite cv_resize_dsize_run by heap_lookup.
  destruct (is_empty (Gray canvas)); reflexivity.
Qed.

End Resize.

(** ** The canvas of the bounding-box normaliser *)

Lemma pixel_imap2 {A B} (f : nat → nat → A → B) (g : list (list A)) r c :
  pixel (imap (λ r row, imap (f r) row) g) r c = f r c <$> pixel g r c.
Proof.
  unfold pixel. rewrite list_lookup_imap.
  destruct (g !! r) as [row|]; simpl; [|done].
  apply list_lookup_imap.
Qed.

Lemma rect_imap2 {A B} (f : nat → nat → A → B) (g : list (list A)) :
  rect g → rect (imap (λ r row, imap (f r) row) g).
Proof.
  intros Hrect.
  assert (cols (imap (λ r row, imap (f r) row) g) = cols g) as Hcols.
  { destruct g; simpl; [done|]. by rewrite length_imap. }
  unfold rect. rewrite Hcols. apply Forall_lookup. intros i row Hi.
  rewrite list_lookup_imap in Hi.
  destruct (g !! i) as [row'|] eqn:Hrow; simpl in Hi; [|done].
  injection Hi as <-. rewrite length_imap.
  unfold rect in Hrect. rewrite Forall_lookup in Hrect. by eapply Hrect.
Qed.

Lemma cols_imap2 {A B} (f : nat → nat → A → B) (g : list (list A)) :
  cols (imap (λ r row, imap (f r) row) g) = cols g.
Proof. destruct g; simpl; [done|]. by rewrite length_imap. Qed.

Lemma rect_zeros n : rect (zeros n n).
Proof.
  unfold rect, zeros. apply Forall_forall. intros row Hin.
  apply elem_of_replicate in Hin as [-> Hn].
  destruct (Z.to_nat n); [done|]. simpl. by rewrite !length_replicate.
Qed.

Lemma pixel_is_Some {A} (g : list (list A)) (r c : nat) :
  rect g → Z.of_nat r < rows g → Z.of_nat c < cols g →
  ∃ p, pixel g r c = Some p.
Proof.
  intros Hrect Hr Hc. unfold pixel, rows in *.
  destruct (lookup_lt_is_Some_2 g r) as [row Hrow]; [lia|].
  rewrite Hrow. simpl.
  unfold rect in Hrect. rewrite Forall_lookup in Hrect.
  specialize (Hrect _ _ Hrow). simpl in Hrect.
  destruct (lookup_lt_is_Some_2 row c) as [p Hp]; [lia|]. by exists p.
Qed.

(** Without a pixel above the cutoff the canvas has no rows. *)
Lemma bb_canvas_degenerate (g : gray_px) x y bw bh :
  boundingRect_px (map (map (thresh_binary THRESH 255)) g) = (x, y, bw, bh) →
  bw = 0 ∨ bh = 0 →
  bb_canvas g = Some [].
Proof.
  intros Hbb Hz.
  destruct (boundingRect_px_cases (map (map (thresh_binary THRESH 255)) g))
    as [[_ Hzero]|(xmin & xmax & ymin & ymax & Hr & ? & ? & _)].
  2:{ rewrite Hr in Hbb. injection Hbb as <- <- <- <-. lia. }
  rewrite Hzero in Hbb. injection Hbb as <- <- <- <-. rename Hzero into Hbb.
  unfold bb_canvas. rewrite Hbb. simpl Z.max. unfold floor_half.
  change (zeros 0 0) with (@nil (list Z)).
  unfold slice2. rewrite py_slice_in_range by lia. reflexivity.
Qed.

(** With a pixel above the cutoff: the canvas is square, of the larger side
    of the bounding rectangle; the rectangle's pixels of the input sit in it
    at the floored half paddings, and the rest of it is zero. *)
Lemma bb_canvas_spec (g : gray_px) x y bw bh :
  rect g →
  boundingRect_px (map (map (thresh_binary THRESH 255)) g) = (x, y, bw, bh) →
  0 < bw → 0 < bh →
  ∃ canvas : gray_px,
    bb_canvas g = Some canvas ∧
    rows canvas = Z.max bw bh ∧ cols canvas = Z.max bw bh ∧ rect canvas ∧
    (∀ i j, 0 <= i < bw → 0 <= j < bh →
       ∃ p, at_xy g (x + i) (y + j) = Some p ∧
            at_xy canvas ((Z.max bw bh - bw) / 2 + i)
                         ((Z.max bw bh - bh) / 2 + j) = Some p) ∧
    (∀ cx cy, 0 <= cx < Z.max bw bh → 0 <= cy < Z.max bw bh →
       ¬ ((Z.max bw bh - bw) / 2 <= cx < (Z.max bw bh - bw) / 2 + bw ∧
          (Z.max bw bh - bh) / 2 <= cy < (Z.max bw bh - bh) / 2 + bh) →
       at_xy canvas cx cy = Some 0).
Proof.
  intros Hrect Hbb Hbw Hbh.
  destruct (boundingRect_px_inside _ _ _ _ _ (rect_map _ _ Hrect) Hbb)
    as [?|(Hx & Hy & _ & _ & Hxw & Hyh)]; [lia|].
  rewrite cols_map in Hxw. rewrite rows_map in Hyh.
  set (side := Z.max bw bh).
  set (left := (side - bw) / 2). set (top := (side - bh) / 2).
  assert (0 <= left ∧ left + bw <= side) as [Hl0 Hl1]
    by (subst left side; split; [apply Z.div_pos|]; lia).
  assert (0 <= top ∧ top + bh <= side) as [Ht0 Ht1]
    by (subst top side; split; [apply Z.div_pos|]; lia).
  assert (0 < side) as Hside by (subst side; lia).
  destruct (slice2_inside g x y bw bh Hrect) as (Hlen & Hrows & Hpx); try lia.
  unfold bb_canvas. rewrite Hbb. fold side. unfold floor_half. fold left top.
  pose proof (setslice2_same_shape (zeros side side)
                (slice2 g y (y + bh) x (x + bw))
                top (top + bh) left (left + bw)) as Hset.
  rewrite rows_zeros, cols_zeros in Hset by lia.
  rewrite Hset; try lia.
  2:{ eapply Forall_impl; [exact Hrows|]. intros row ->. f_equal. lia. }
  clear Hset. eexists. split; [reflexivity|].
  split. { unfold rows. rewrite length_imap. apply rows_zeros. lia. }
  split. { rewrite cols_imap2. apply cols_zeros. lia. }
  split. { apply rect_imap2, rect_zeros. }
  split.
  - intros i j Hi Hj.
    destruct (pixel_is_Some g (Z.to_nat (y + j)) (Z.to_nat (x + i)) Hrect)
      as [p Hp]; [lia|lia|].
    exists p. unfold at_xy.
    rewrite !andb_true_intro by (split; apply Z.leb_le; lia).
    split; [exact Hp|].
    rewrite pixel_imap2, pixel_zeros by lia. simpl.
    rewrite bool_decide_eq_true_2 by lia.
    rewrite Hpx by lia.
    replace (Z.to_nat y + (Z.to_nat (top + j) - Z.to_nat top))%nat
      with (Z.to_nat (y + j)) by lia.
    replace (Z.to_nat x + (Z.to_nat (left + i) - Z.to_nat left))%nat
      with (Z.to_nat (x + i)) by lia.
    by rewrite Hp.
  - intros cx cy Hcx Hcy Hout. unfold at_xy.
    rewrite andb_true_intro by (split; apply Z.leb_le; lia).
    rewrite pixel_imap2, pixel_zeros by lia. simpl.
    rewrite bool_decide_eq_false_2; [done|]. lia.
Qed.

Lemma fresh_insert_None (h : gmap positive ndarray) k a :
  h !! fresh (dom (<[k := a]> h)) = None.
Proof.
  pose proof (fresh_heap_None (<[k := a]> h)) as H.
  destruct (decide (k = fresh (dom (<[k := a]> h)))) as [Heq|Hne].
  - rewrite <- Heq, lookup_insert_eq in H. discriminate.
  - by rewrite lookup_insert_ne in H.
Qed.

Section Normaliser.

Context {cv : OpenCV}.

(** C6: when the bounding rectangle (x, y, w, h) of the thresholded image
    is not empty, the normaliser returns after allocating a square canvas of
    side max(w, h); the canvas holds the rectangle's pixels of the original
    image at left offset floor((side - w) / 2) and top offset
    floor((side - h) / 2), and zero everywhere else; the padding after the
    copy exceeds the padding before it by the remainder of the difference
    (the odd pixel goes to the right and to the bottom).  The input image
    is not changed. *)
Theorem bb_resize_centres (w : world) (l : loc) (g : gray_px) (x y bw bh : Z) :
  rect g →
  heap w !! l = Some (Gray g) →
  boundingRect_px (map (map (thresh_binary THRESH 255)) g) = (x, y, bw, bh) →
  0 < bw → 0 < bh →
  ∃ (w' : world) (lc : loc) (canvas : gray_px),
    bb_resize (Some l) w = (Ok None, w') ∧
    heap w !! lc = None ∧
    heap w' !! lc = Some (Gray canvas) ∧
    heap w' !! l = Some (Gray g) ∧
    rows canvas = Z.max bw bh ∧ cols canvas = Z.max bw bh ∧
    (∀ i j, 0 <= i < bw → 0 <= j < bh →
       ∃ p, at_xy g (x + i) (y + j) = Some p ∧
            at_xy canvas ((Z.max bw bh - bw) / 2 + i)
                         ((Z.max bw bh - bh) / 2 + j) = Some p) ∧
    (∀ cx cy, 0 <= cx < Z.max bw bh → 0 <= cy < Z.max bw bh →
       ¬ ((Z.max bw bh - bw) / 2 <= cx < (Z.max bw bh - bw) / 2 + bw ∧
          (Z.max bw bh - bh) / 2 <= cy < (Z.max bw bh - bh) / 2 + bh) →
       at_xy canvas cx cy = Some 0) ∧
    Z.max bw bh - ((Z.max bw bh - bw) / 2 + bw)
      = (Z.max bw bh - bw) / 2 + (Z.max bw bh - bw) mod 2 ∧
    Z.max bw bh - ((Z.max bw bh - bh) / 2 + bh)
      = (Z.max bw bh - bh) / 2 + (Z.max bw bh - bh) mod 2.
Proof.
  intros Hrect E Hbb Hbw Hbh.
  destruct (bb_canvas_spec g x y bw bh Hrect Hbb Hbw Hbh)
    as (canvas & Hc & Hrows & Hcols & _ & Hcopy & Hzero).
  rewrite (bb_resize_run w l g E _ _ canvas eq_refl Hc eq_refl).
  assert (is_empty (Gray canvas) = false) as ->.
  { simpl. rewrite Hrows, Hcols.
    apply orb_false_intro; apply Z.eqb_neq; lia. }
  eexists _, _, canvas. split; [reflexivity|].
  split; [apply fresh_insert_None|].
  split; [heap_lookup|].
  split; [heap_lookup|].
  repeat split; try done; lia.
Qed.

(** C7, as the code has it: without a pixel above the cutoff the bounding
    rectangle is (0, 0, 0, 0); the normaliser allocates a canvas without
    rows, and the final resize fails with the library's own error. *)
Theorem bb_resize_degenerate (w : world) (l : loc) (g : gray_px) (x y bw bh : Z) :
  heap w !! l = Some (Gray g) →
  boundingRect_px (map (map (thresh_binary THRESH 255)) g) = (x, y, bw, bh) →
  bw = 0 ∨ bh = 0 →
  ∃ (w' : world) (lc : loc),
    bb_resize (Some l) w = (Raise CvError, w') ∧
    heap w !! lc = None ∧
    heap w' !! lc = Some (Gray []).
Proof.
  intros E Hbb Hz.
  rewrite (bb_resize_run w l g E _ _ [] eq_refl
             (bb_canvas_degenerate g x y bw bh Hbb Hz) eq_refl).
  simpl is_empty. cbv iota.
  eexists _, _. split; [reflexivity|].
  split; [apply fresh_insert_None|heap_lookup].
Qed.

End Normaliser.

Lemma bb_resize_centres_witness :
  ∃ (w' : world) (lc : loc) (canvas : gray_px),
    bb_resize (cv := test_cv (λ _ _, None) (λ _ _, None)) (Some 1%positive)
      (one_image (Gray [[0; 0; 0; 0]; [0; 40; 50; 60]; [0; 30; 0; 0]]))
    = (Ok None, w') ∧
    heap w' !! lc = Some (Gray canvas) ∧
    rows canvas = 3 ∧ cols canvas = 3 ∧
    at_xy canvas 0 0 = Some 0 ∧
    at_xy canvas 0 1 = Some 40 ∧ at_xy canvas 2 1 = Some 60 ∧
    at_xy canvas 2 2 = Some 0.
Proof.
  destruct (bb_resize_centres (cv := test_cv (λ _ _, None) (λ _ _, None))
              (one_image (Gray [[0; 0; 0; 0]; [0; 40; 50; 60]; [0; 30; 0; 0]]))
              1%positive [[0; 0; 0; 0]; [0; 40; 50; 60]; [0; 30; 0; 0]]
              1 1 3 1)
    as (w' & lc & canvas & Hrun & _ & Hlc & _ & Hrows & Hcols & Hcopy & Hzero & _).
  - repeat constructor.
  - reflexivity.
  - reflexivity.
  - lia.
  - lia.
  - exists w', lc, canvas.
    split; [exact Hrun|]. split; [exact Hlc|].
    split; [exact Hrows|]. split; [exact Hcols|].
    split; [apply (Hzero 0 0); simpl; lia|].
    split.
    { destruct (Hcopy 0 0) as (p & Hp & Hq); [lia|lia|].
      vm_compute in Hp. injection Hp as <-. exact Hq. }
    split.
    { destruct (Hcopy 2 0) as (p & Hp & Hq); [lia|lia|].
      vm_compute in Hp. injection Hp as <-. exact Hq. }
    apply (Hzero 2 2); simpl; lia.
Defined.

Lemma bb_resize_degenerate_witness :
  ∃ (w' : world) (lc : loc),
    bb_resize (cv := test_cv (λ _ _, None) (λ _ _, None)) (Some 1%positive)
      (one_image (Gray [[0; 30]; [12; 0]]))
    = (Raise CvError, w') ∧
    heap (one_image (Gray [[0; 30]; [12; 0]])) !! lc = None ∧
    heap w' !! lc = Some (Gray []).
Proof.
  apply (bb_resize_degenerate (cv := test_cv (λ _ _, None) (λ _ _, None))
           (one_image (Gray [[0; 30]; [12; 0]])) 1%positive
           [[0; 30]; [12; 0]] 0 0 0 0).
  - reflexivity.
  - reflexivity.
  - left. reflexivity.
Defined.

(** C7, as stated, fails: no [DegenerateBoundingBoxError] is raised on an
    all-background image; the canvas without rows has been allocated when
    the resize fails. *)
Lemma bb_resize_degenerate_counterexample :
  ¬ (∀ (cv : OpenCV) (w : world) (l : loc) (g : gray_px) (x y bw bh : Z),
       heap w !! l = Some (Gray g) →
       boundingRect_px (map (map (thresh_binary THRESH 255)) g)
         = (x, y, bw, bh) →
       bw = 0 ∨ bh = 0 →
       (bb_resize (Some l) w).1 = Raise DegenerateBoundingBoxError).
Proof.
  intros H.
  specialize (H (test_cv (λ _ _, None) (λ _ _, None))
                (one_image (Gray [[0; 0]; [0; 0]])) 1%positive
                [[0; 0]; [0; 0]] 0 0 0 0 eq_refl eq_refl (or_introl eq_refl)).
  vm_compute in H. discriminate.
Qed.

(** ** Floating point *)

Section FloatFacts.
Context {fl : FloatOps} {ieee : IEEE754 fl}.
Local Open Scope Q_scope.

Lemma Q_scaled_bounds (H x q p : Q) :
  1 <= H -> H * x == 512 ->
  x - ulp_half * x <= q -> q <= x + ulp_half * x ->
  H * q - ulp_half * (H * q) <= p -> p <= H * q + ulp_half * (H * q) ->
  511 + (3#4) <= p /\ p <= 512 + (1#4).
Proof.
  unfold ulp_half. change (2 ^ 53)%positive with 9007199254740992%positive.
  intros HH Hx Hq1 Hq2 Hp1 Hp2.
  assert (H * (x - (1 # 9007199254740992) * x) <= H * q) as L1 by (apply Qmult_le_l; lra).
  assert (H * q <= H * (x + (1 # 9007199254740992) * x)) as L2 by (apply Qmult_le_l; lra).
  assert (H * (x - (1 # 9007199254740992) * x) == 512 - (1 # 9007199254740992) * 512) as E1
    by (rewrite <- Hx; ring).
  assert (H * (x + (1 # 9007199254740992) * x) == 512 + (1 # 9007199254740992) * 512) as E2
    by (rewrite <- Hx; ring).
  rewrite E1 in L1. rewrite E2 in L2.
  set (t := H * q) in *. clearbody t. split; lra.
Qed.

Lemma Q_quotient_bounds (H x : Q) :
  1 <= H -> H <= inject_Z (2 ^ 53) -> H * x == 512 ->
  (1 # 2 ^ 44) <= x /\ x <= 512.
Proof.
  change (inject_Z (2 ^ 53)) with (9007199254740992 # 1).
  change (2 ^ 44)%positive with 17592186044416%positive.
  intros H1 H2 Hx.
  assert (0 < x) as Hpos.
  { destruct (Qlt_le_dec 0 x) as [|Hneg]; [done|].
    assert (H * x <= H * 0) by (apply Qmult_le_l; lra). lra. }
  assert (1 * x <= H * x) by (apply Qmult_le_compat_r; lra).
  assert (H * x <= (9007199254740992 # 1) * x) by (apply Qmult_le_compat_r; lra).
  split; lra.
Qed.

Lemma scaled_height (h : Z) :
  (1 <= h <= 2 ^ 53)%Z ->
  cvRound (fmul (float_of_int h)
                (fdiv (float_of_int STD_RES) (float_of_int h))) = STD_RES.
Proof.
  intros Hh. unfold STD_RES.
  set (A := float_of_int 512). set (B := float_of_int h).
  assert (fval A == 512) as Ha by (apply float_of_int_exact; simpl; lia).
  assert (fval B == inject_Z h) as Hb by (apply float_of_int_exact; lia).
  assert (1 <= inject_Z h /\ inject_Z h <= inject_Z (2 ^ 53)) as [Hh1 Hh2].
  { split; [change 1 with (inject_Z 1)|]; rewrite <- Zle_Qle; lia. }
  assert (inject_Z h * (fval A / fval B) == 512) as Hx.
  { rewrite Ha, Hb. field. lra. }
  destruct (Q_quotient_bounds _ _ Hh1 Hh2 Hx) as [Hx1 Hx2].
  change (inject_Z (2 ^ 53)) with (9007199254740992 # 1) in Hh2.
  change (2 ^ 44)%positive with 17592186044416%positive in Hx1.
  assert (Qabs (fval (fdiv A B) - fval A / fval B)
          <= ulp_half * (fval A / fval B)) as Hq.
  { apply fdiv_accurate; rewrite ?Ha, ?Hb;
      change (inject_Z (2 ^ 53)) with (9007199254740992 # 1); lra. }
  apply Qabs_Qle_condition in Hq as [Hq1 Hq2].
  set (x := fval A / fval B) in *. set (q := fval (fdiv A B)) in *.
  unfold ulp_half in Hq1, Hq2.
  change (2 ^ 53)%positive with 9007199254740992%positive in Hq1, Hq2.
  assert (Qabs (fval (fmul B (fdiv A B)) - fval B * q)
          <= ulp_half * (fval B * q)) as Hp.
  { apply fmul_accurate; fold q; rewrite ?Hb;
      change (inject_Z (2 ^ 60)) with (1152921504606846976 # 1);
      change (2 ^ 60)%positive with 1152921504606846976%positive; lra. }
  rewrite Hb in Hp. apply Qabs_Qle_condition in Hp as [Hp1 Hp2].
  set (p := fval (fmul B (fdiv A B))) in *.
  destruct (Q_scaled_bounds (inject_Z h) x q p Hh1 Hx) as [Hlo Hhi];
    try (unfold ulp_half in *;
         change (2 ^ 53)%positive with 9007199254740992%positive in *; lra).
  assert (Qabs (inject_Z (cvRound (fmul B (fdiv A B))) - p) <= 1 # 2) as Hn.
  { apply cvRound_nearest. fold p. apply Qabs_Qle_condition.
    change (inject_Z (2 ^ 30)) with (1073741824 # 1). split; lra. }
  apply Qabs_Qle_condition in Hn as [Hn1 Hn2].
  set (n := cvRound (fmul B (fdiv A B))) in *.
  assert (inject_Z 511 < inject_Z n) as L by (change (inject_Z 511) with (511 # 1); lra).
  assert (inject_Z n < inject_Z 513) as U by (change (inject_Z 513) with (513 # 1); lra).
  rewrite <- Zlt_Qlt in L, U. lia.
Qed.
End FloatFacts.

Lemma Qround_even_nearest (q : Q) :
  (Qabs (inject_Z (Qround_even q) - q) <= 1 # 2)%Q.
Proof.
  destruct q as [n d]. unfold Qround_even. cbn [Qnum Qden].
  pose proof (Z.div_mod n (Z.pos d) ltac:(lia)) as Hdm.
  pose proof (Z.mod_pos_bound n (Z.pos d) ltac:(lia)) as Hr.
  set (k := n / Z.pos d) in *. set (r := n mod Z.pos d) in *.
  apply Qabs_Qle_condition.
  assert (forall m : Z, (m = k \/ m = k + 1)%Z ->
            (2 * (Z.pos d * m - n) <= Z.pos d)%Z -> (- Z.pos d <= 2 * (Z.pos d * m - n))%Z ->
            (- (1 # 2) <= inject_Z m - (n # d) /\ inject_Z m - (n # d) <= 1 # 2)%Q) as Hm.
  { intros m _ H1 H2. unfold Qle, Qminus, Qplus, Qopp, inject_Z. cbn.
    rewrite ?Pos2Z.inj_mul. split; nia. }
  destruct (Z.ltb_spec (2 * r) (Z.pos d)); [apply Hm; [by left|nia|nia]|].
  destruct (Z.ltb_spec (Z.pos d) (2 * r)); [apply Hm; [by right|nia|nia]|].
  destruct (Z.even k); apply Hm; first [by left|by right|nia].
Qed.

Lemma exact_float_ieee : IEEE754 exact_float.
Proof.
  split; cbn [float float_of_int fdiv fmul cvRound fval exact_float].
  - reflexivity.
  - intros a b Ha _ Hb _.
    assert (a / b - a / b == 0)%Q as -> by ring.
    change (Qabs 0) with 0%Q. unfold ulp_half.
    apply Qmult_le_0_compat; [done|].
    apply Qle_shift_div_l; lra.
  - intros a b Ha _ Hb _.
    assert (a * b - a * b == 0)%Q as -> by ring.
    change (Qabs 0) with 0%Q. unfold ulp_half.
    apply Qmult_le_0_compat; [done|].
    change (2 ^ 60)%positive with 1152921504606846976%positive in *.
    apply Qmult_le_0_compat; lra.
  - intros f _. apply Qround_even_nearest.
Qed.

(** ** Loader *)

Lemma bind_ret {A} (m : M A) w : (m ≫= mret) w = m w.
Proof. unfold mbind, M_bind. by destruct (m w) as [[a|e] w']. Qed.

Lemma rows_tabulate {A} (h w : Z) (f : nat → nat → A) :
  0 <= h → rows (tabulate h w f) = h.
Proof. intros. unfold rows, tabulate. rewrite length_map, length_seq. lia. Qed.

Lemma cols_tabulate {A} (h w : Z) (f : nat → nat → A) :
  0 < h → 0 <= w → cols (tabulate h w f) = w.
Proof.
  intros Hh Hw. unfold tabulate.
  destruct (Z.to_nat h) as [|k] eqn:Hk; [lia|]. simpl.
  rewrite length_map, length_seq. lia.
Qed.

Section Loader.

Context {cv : OpenCV} {fl : FloatOps}.

Lemma height_equalized a : height (equalized a) = height a.
Proof. destruct a; simpl; [apply rows_map|done]. Qed.

Lemma width_equalized a : width (equalized a) = width a.
Proof. destruct a; simpl; [apply cols_map|done]. Qed.

Lemma height_resize_px a dw dh : 0 <= dh → height (resize_px a dw dh) = dh.
Proof. intros. destruct a; simpl; by apply rows_tabulate. Qed.

Lemma width_resize_px a dw dh :
  0 < dh → 0 <= dw → width (resize_px a dw dh) = dw.
Proof. intros. destruct a; simpl; by apply cols_tabulate. Qed.

Lemma is_empty_false a : 0 < height a → 0 < width a → is_empty a = false.
Proof.
  intros Hh Hw. destruct a; simpl in *;
    apply orb_false_intro; apply Z.eqb_neq; lia.
Qed.

(** Equalising a decoded three-channel image: the library rejects it; the
    decoded array stays in the store as it was read. *)
Lemma load_image_equalize_color_run path grayscale resize w c :
  imread_file path grayscale = Some (Color c) →
  load_image path grayscale true resize w
  = (Raise CvError,
     set_heap (<[fresh (dom (heap w)) := Color c]> (heap w)) w).
Proof.
  intros E. unfold load_image, cv_imread. rewrite E.
  erewrite bind_ok by run. cbv beta iota.
  unfold cv_equalizeHist.
  erewrite bind_raise; [reflexivity|]. run_steps. reflexivity.
Qed.

(** Loading with [resize]: the decoded (and, on request, equalised) image is
    handed to the resize with the one factor [STD_RES / height] for both
    axes. *)
Lemma load_image_resize_run path grayscale equalize w a :
  imread_file path grayscale = Some a →
  (equalize = true → ∃ g, a = Gray g) →
  height a ≠ 0 →
  load_image path grayscale equalize true w
  = resize_to (if equalize then equalized a else a)
      (cvRound (fmul (float_of_int (width a))
                     (fdiv (float_of_int STD_RES) (float_of_int (height a)))))
      (cvRound (fmul (float_of_int (height a))
                     (fdiv (float_of_int STD_RES) (float_of_int (height a)))))
      (set_heap (<[fresh (dom (heap w)) := if equalize then equalized a else a]>
                   (heap w)) w).
Proof.
  intros E Heq Hh. unfold load_image, cv_imread. rewrite E.
  erewrite bind_ok by run. cbv beta iota.
  set (l0 := fresh (dom (heap w))).
  set (stored := if equalize then equalized a else a).
  assert ((if equalize then cv_equalizeHist (Some l0) (Some l0) else mret ())
            (set_heap (<[l0 := a]> (heap w)) w)
          = (Ok (), set_heap (<[l0 := stored]> (heap w)) w)) as Hstep.
  { subst stored. destruct equalize; [|reflexivity].
    destruct (Heq eq_refl) as [g ->].
    unfold cv_equalizeHist. run_steps.
    unfold write. cbn [heap set_heap equalized]. by rewrite insert_insert_eq. }
  erewrite bind_ok by exact Hstep. cbv beta iota.
  rewrite bind_ret.
  assert (height stored = height a ∧ width stored = width a) as [Hhs Hws].
  { subst stored. destruct equalize; [|done].
    by rewrite height_equalized, width_equalized. }
  assert (shape stored !! 0%nat = Some (height a)) as Hshape.
  { rewrite <- Hhs. by destruct stored. }
  unfold get_shape, py_index, py_div, cv_resize_scale, cv_arg.
  run_steps. rewrite Hshape. run_steps.
  rewrite (proj2 (Z.eqb_neq _ _) Hh). run_steps.
  by rewrite Hhs, Hws.
Qed.

End Loader.

Section LoaderClaims.

Context {cv : OpenCV} {fl : FloatOps}.

(** C8, as the code has it: under IEEE 754 arithmetic, an image that
    decodes to a non-empty array (of height at most 2^53, and
    single-channel when it is to be equalised) and whose scaled width
    rounds to at least one pixel is loaded with [resize] to an image of
    height 512; both sides are the input's sides times the one factor
    512 / height, rounded to the nearest integer.  (An image whose scaled
    width rounds to zero is not resized at all: see the counterexample.) *)
Theorem load_image_resize_height {ieee : IEEE754 fl}
    (path : string) (grayscale equalize : bool) (w : world) (a : ndarray) :
  imread_file path grayscale = Some a →
  (equalize = true → ∃ g, a = Gray g) →
  1 <= height a <= 2 ^ 53 →
  0 < width a →
  0 < cvRound (fmul (float_of_int (width a))
                    (fdiv (float_of_int STD_RES) (float_of_int (height a)))) →
  ∃ (l' : loc) (w' : world) (a' : ndarray),
    load_image path grayscale equalize true w = (Ok (Some l'), w') ∧
    heap w' !! l' = Some a' ∧
    height a' = STD_RES ∧
    height a' = cvRound (fmul (float_of_int (height a))
                   (fdiv (float_of_int STD_RES) (float_of_int (height a)))) ∧
    width a' = cvRound (fmul (float_of_int (width a))
                  (fdiv (float_of_int STD_RES) (float_of_int (height a)))).
Proof.
  intros E Heq Hh Hw Hdw.
  rewrite (load_image_resize_run _ _ _ _ _ E Heq) by lia.
  rewrite (scaled_height (height a) Hh) in *.
  set (dw := cvRound _) in *.
  set (stored := if equalize then equalized a else a).
  assert (height stored = height a ∧ width stored = width a) as [Hhs Hws].
  { subst stored. destruct equalize; [|done].
    by rewrite height_equalized, width_equalized. }
  unfold resize_to.
  rewrite is_empty_false by lia.
  assert ((dw <=? 0) || (STD_RES <=? 0) = false) as ->.
  { apply orb_false_intro; [apply Z.leb_gt; lia|reflexivity]. }
  eexists _, _, (resize_px stored dw STD_RES).
  split; [reflexivity|].
  split; [apply lookup_insert_eq|].
  rewrite height_resize_px, width_resize_px by (unfold STD_RES; lia).
  done.
Qed.

(** C9, as the code has it: asked to equalise a file that decodes to a
    three-channel image, the loader fails with the library's error; nothing
    has been equalised, the decoded array is in the store as it was read. *)
Theorem load_image_equalize_color
    (path : string) (grayscale resize : bool) (w : world) (c : color_px) :
  imread_file path grayscale = Some (Color c) →
  ∃ (w' : world) (l : loc),
    load_image path grayscale true resize w = (Raise CvError, w') ∧
    heap w !! l = None ∧
    heap w' !! l = Some (Color c).
Proof.
  intros E. rewrite (load_image_equalize_color_run _ _ _ _ _ E).
  eexists _, _. split; [reflexivity|].
  split; [apply fresh_heap_None|apply lookup_insert_eq].
Qed.

End LoaderClaims.

Lemma load_image_resize_height_witness :
  ∃ (l' : loc) (w' : world) (a' : ndarray),
    load_image (cv := test_cv (λ _ _, Some (Gray [[1; 2; 3]; [4; 5; 6]])) (λ _ _, None))
               (fl := exact_float) "eye.jpeg" true false true empty_world
    = (Ok (Some l'), w') ∧
    heap w' !! l' = Some a' ∧
    height a' = 512 ∧ width a' = 768.
Proof.
  destruct (load_image_resize_height
              (cv := test_cv (λ _ _, Some (Gray [[1; 2; 3]; [4; 5; 6]])) (λ _ _, None))
              (fl := exact_float) (ieee := exact_float_ieee)
              "eye.jpeg" true false empty_world (Gray [[1; 2; 3]; [4; 5; 6]]))
    as (l' & w' & a' & Hrun & Hl' & Hh & _ & Hw).
  - reflexivity.
  - discriminate.
  - vm_compute. split; discriminate.
  - vm_compute. reflexivity.
  - vm_compute. reflexivity.
  - exists l', w', a'. split; [exact Hrun|]. split; [exact Hl'|].
    split; [exact Hh|]. rewrite Hw. vm_compute. reflexivity.
Defined.

Lemma load_image_equalize_color_witness :
  ∃ (w' : world) (l : loc),
    load_image (cv := test_cv (λ _ _, Some (Color [[(1, 2, 3)]])) (λ _ _, None))
               (fl := exact_float) "eye.jpeg" false true true empty_world
    = (Raise CvError, w') ∧
    heap empty_world !! l = None ∧
    heap w' !! l = Some (Color [[(1, 2, 3)]]).
Proof.
  apply (load_image_equalize_color
           (cv := test_cv (λ _ _, Some (Color [[(1, 2, 3)]])) (λ _ _, None))
           (fl := exact_float) "eye.jpeg" false true empty_world [[(1, 2, 3)]]).
  reflexivity.
Defined.

(** C8, as stated, fails: an image of 2048 rows and one column is read
    without trouble, but its width times 512 / 2048 rounds to zero, the
    library refuses the empty target size, and the loader returns no image
    of height 512. *)
Lemma load_image_resize_height_counterexample :
  ¬ (∀ (cv : OpenCV) (fl : FloatOps) (ieee : IEEE754 fl)
       (path : string) (grayscale equalize : bool) (w : world) (a : ndarray),
       imread_file path grayscale = Some a →
       (equalize = true → ∃ g, a = Gray g) →
       1 <= height a <= 2 ^ 53 →
       0 < width a →
       ∃ (l' : loc) (w' : world) (a' : ndarray),
         load_image path grayscale equalize true w = (Ok (Some l'), w') ∧
         heap w' !! l' = Some a' ∧
         height a' = STD_RES).
Proof.
  intros H.
  destruct (H (test_cv (λ _ _, Some (Gray (replicate 2048 [200]))) (λ _ _, None))
              exact_float exact_float_ieee "strip.png" true false empty_world
              (Gray (replicate 2048 [200])) eq_refl)
    as (l' & w' & a' & Hrun & _).
  - discriminate.
  - vm_compute. split; discriminate.
  - vm_compute. reflexivity.
  - vm_compute in Hrun. discriminate.
Qed.

(** C9, as stated, fails: the error is the library's, there is no
    [InvalidFormatError]. *)
Lemma load_image_equalize_color_counterexample :
  ¬ (∀ (cv : OpenCV) (fl : FloatOps) (path : string) (grayscale resize : bool)
       (w : world) (c : color_px),
       imread_file path grayscale = Some (Color c) →
       (load_image path grayscale true resize w).1 = Raise InvalidFormatError).
Proof.
  intros H.
  specialize (H (test_cv (λ _ _, Some (Color [[(1, 2, 3)]])) (λ _ _, None))
                exact_float "eye.jpeg" false true empty_world [[(1, 2, 3)]]
                eq_refl).
  vm_compute in H. discriminate.
Qed.

(** ** Notch detection *)

Section Notch.

Context {cv : OpenCV} {fl : FloatOps}.

(** C1, as the code has it: when the image loads and the circle detector
    returns the empty list, notch detection fails with the [IndexError] of
    the out-of-range subscript [circles[0]]; nothing after it runs. *)
Theorem notch_detection_without_circles
    (path : string) (w w1 w2 w3 : world) (img img_thresh : pyval) :
  load_image path true false true w = (Ok img, w1) →
  threshold img w1 = (Ok img_thresh, w2) →
  hough_circles img w2 = (Ok [], w3) →
  experiment_notch_detection path w = (Raise IndexError, w3).
Proof.
  intros Hload Hthr Hhough. unfold experiment_notch_detection.
  erewrite bind_ok by exact Hload. cbv beta.
  erewrite bind_ok by exact Hthr. cbv beta.
  erewrite bind_ok by exact Hhough. cbv beta.
  reflexivity.
Qed.

End Notch.

Lemma notch_detection_without_circles_witness :
  (experiment_notch_detection
     (cv := test_cv (λ _ _, Some (Gray (replicate 512 [200]))) (λ _ _, None))
     (fl := exact_float) "eye.jpeg" empty_world).1
  = Raise IndexError.
Proof.
  erewrite (notch_detection_without_circles
              (cv := test_cv (λ _ _, Some (Gray (replicate 512 [200]))) (λ _ _, None))
              (fl := exact_float) "eye.jpeg" empty_world).
  - reflexivity.
  - vm_compute. reflexivity.
  - vm_compute. reflexivity.
  - vm_compute. reflexivity.
Defined.

(** C1, as stated, fails: on a file that loads and in which no circle is
    found the experiment ends in an [IndexError], not in a
    [NoCircleDetectedError]. *)
Lemma notch_detection_without_circles_counterexample :
  ¬ (∀ (cv : OpenCV) (fl : FloatOps) (path : string) (w w1 w2 w3 : world)
       (img img_thresh : pyval),
       load_image path true false true w = (Ok img, w1) →
       threshold img w1 = (Ok img_thresh, w2) →
       hough_circles img w2 = (Ok [], w3) →
       (experiment_notch_detection path w).1 = Raise NoCircleDetectedError).
Proof.
  intros H.
  eassert (_ = Raise NoCircleDetectedError) as Hcx.
  { eapply (H (test_cv (λ _ _, Some (Gray (replicate 512 [200]))) (λ _ _, None))
              exact_float "eye.jpeg" empty_world);
      vm_compute; reflexivity. }
  vm_compute in Hcx. discriminate.
Qed.

(** * Further properties of the code *)

(** ** Circle detector: repeated calls, small images, rejected inputs *)

Lemma fill_ext {A} (P Q : nat → nat → bool) (v : A) g :
  (∀ r c, P r c = Q r c) → fill P v g = fill Q v g.
Proof.
  intros H. unfold fill. apply imap_ext. intros r row _.
  apply imap_ext. intros c p _. by rewrite H.
Qed.

Lemma fill_fill {A} (P Q : nat → nat → bool) (v : A) g :
  fill P v (fill Q v g) = fill (λ r c, P r c || Q r c) v g.
Proof.
  unfold fill. apply list_eq. intros r. rewrite !list_lookup_imap.
  destruct (g !! r) as [row|]; simpl; [|done]. f_equal.
  apply list_eq. intros c. rewrite !list_lookup_imap.
  destruct (row !! c) as [p|]; simpl; [|done]. f_equal.
  by destruct (P r c), (Q r c).
Qed.

Lemma rows_masked g : rows (masked g) = rows g.
Proof. unfold masked. by rewrite !rows_fill. Qed.

Lemma cols_masked g : cols (masked g) = cols g.
Proof. unfold masked. by rewrite !cols_fill. Qed.

Lemma masked_idem g : masked (masked g) = masked g.
Proof.
  unfold masked at 1. rewrite rows_masked, cols_masked. unfold masked.
  rewrite !fill_fill. apply fill_ext. intros r c.
  destruct (in_rect 0 (rows g) (cols g) (half (rows g)) r c),
           (in_rect 0 0 (half (cols g)) (rows g) r c); reflexivity.
Qed.

Section CircleDetectorMore.

Context {cv : OpenCV}.

(** X1: calling the detector again on the same image changes nothing more: the
    image left by the second call is the image left by the first. *)
Theorem hough_circles_mask_idempotent (w : world) (l : loc) (g : gray_px) :
  heap w !! l = Some (Gray g) →
  heap (hough_circles (Some l) (hough_circles (Some l) w).2).2
  = heap (hough_circles (Some l) w).2.
Proof.
  intros E. rewrite (hough_circles_run w l g E). cbn [snd].
  erewrite hough_circles_run by heap_lookup.
  cbn [snd heap set_heap]. by rewrite insert_insert_eq, masked_idem.
Qed.

(** X2: an image at most two pixels wide, or at most one pixel high, is blacked
    out completely by the detector: no search region is left. *)
Theorem hough_circles_blacks_out_small (w : world) (l : loc) (g : gray_px) :
  rect g →
  heap w !! l = Some (Gray g) →
  cols g <= 2 ∨ rows g <= 1 →
  ∃ g' : gray_px,
    heap (hough_circles (Some l) w).2 !! l = Some (Gray g') ∧
    ∀ r c p, pixel g r c = Some p → pixel g' r c = Some 0.
Proof.
  intros Hrect E Hsmall. exists (masked g).
  rewrite (hough_circles_run w l g E). cbn [snd heap set_heap].
  split; [apply lookup_insert_eq|].
  intros r c p Hp. rewrite (pixel_masked g r c p Hrect Hp).
  destruct (pixel_in_range _ _ _ _ Hrect Hp) as [Hr Hc].
  destruct (Z.leb_spec (Z.of_nat c) (cols g / 2)); [done|].
  destruct (Z.leb_spec (rows g / 2) (Z.of_nat r)); [done|]. lia.
Qed.

(** X3: the detector takes single-channel images only: on a three-channel
    image the unpacking of the shape raises [ValueError], on [None] the
    shape itself is missing; in both cases nothing has been masked. *)
Theorem hough_circles_rejects (w : world) (l : loc) (c : color_px) :
  hough_circles None w = (Raise AttributeError, w) ∧
  (heap w !! l = Some (Color c) →
   hough_circles (Some l) w = (Raise ValueError, w)).
Proof.
  split; [reflexivity|]. intros E.
  unfold hough_circles, get_shape.
  erewrite bind_ok by run. cbv beta iota. reflexivity.
Qed.

End CircleDetectorMore.

Lemma hough_circles_mask_idempotent_witness :
  heap (hough_circles (cv := test_cv (λ _ _, None) (λ _ _, None)) (Some 1%positive)
          (hough_circles (cv := test_cv (λ _ _, None) (λ _ _, None))
             (Some 1%positive)
             (one_image (Gray (replicate 4 (replicate 6 200))))).2).2
  = heap (hough_circles (cv := test_cv (λ _ _, None) (λ _ _, None))
            (Some 1%positive)
            (one_image (Gray (replicate 4 (replicate 6 200))))).2.
Proof.
  apply (hough_circles_mask_idempotent
           (cv := test_cv (λ _ _, None) (λ _ _, None))
           (one_image (Gray (replicate 4 (replicate 6 200)))) 1%positive
           (replicate 4 (replicate 6 200))).
  reflexivity.
Defined.

Lemma hough_circles_blacks_out_small_witness :
  ∃ g' : gray_px,
    heap (hough_circles (cv := test_cv (λ _ _, None) (λ _ _, None)) (Some 1%positive)
            (one_image (Gray [[9; 8]; [7; 6]; [5; 4]]))).2 !! 1%positive
    = Some (Gray g') ∧
    ∀ r c p, pixel [[9; 8]; [7; 6]; [5; 4]] r c = Some p →
             pixel g' r c = Some 0.
Proof.
  apply (hough_circles_blacks_out_small
           (cv := test_cv (λ _ _, None) (λ _ _, None))
           (one_image (Gray [[9; 8]; [7; 6]; [5; 4]])) 1%positive).
  - repeat constructor.
  - reflexivity.
  - left. vm_compute. discriminate.
Defined.

Lemma hough_circles_rejects_witness :
  hough_circles (cv := test_cv (λ _ _, None) (λ _ _, None)) None
    (one_image (Color [[(1, 2, 3)]]))
  = (Raise AttributeError, one_image (Color [[(1, 2, 3)]])) ∧
  hough_circles (cv := test_cv (λ _ _, None) (λ _ _, None)) (Some 1%positive)
    (one_image (Color [[(1, 2, 3)]]))
  = (Raise ValueError, one_image (Color [[(1, 2, 3)]])).
Proof.
  destruct (hough_circles_rejects (cv := test_cv (λ _ _, None) (λ _ _, None))
              (one_image (Color [[(1, 2, 3)]])) 1%positive [[(1, 2, 3)]])
    as [H0 H1].
  split; [exact H0|]. apply H1. reflexivity.
Defined.

(** ** Bounding-box normaliser: when it succeeds, what it keeps *)

Lemma thresh_binary_nonzero p : thresh_binary THRESH 255 p ≠ 0 ↔ THRESH < p.
Proof.
  unfold thresh_binary. destruct (Z.ltb_spec THRESH p); split; intros; lia.
Qed.

Lemma nonzero_coords_thresholded g r c :
  (r, c) ∈ nonzero_coords 0 (map (map (thresh_binary THRESH 255)) g) ↔
  ∃ p, pixel g r c = Some p ∧ THRESH < p.
Proof.
  rewrite nonzero_coords_spec, Nat.sub_0_r. split.
  - intros (_ & q & Hq & Hq0). rewrite pixel_map in Hq.
    destruct (pixel g r c) as [p|]; simpl in Hq; [|done].
    injection Hq as <-. exists p. split; [done|].
    by apply thresh_binary_nonzero.
  - intros (p & Hp & Hb). split; [lia|].
    exists (thresh_binary THRESH 255 p). rewrite pixel_map, Hp.
    split; [done|]. by apply thresh_binary_nonzero.
Qed.

(** The bounding rectangle of the thresholded image is empty exactly when
    no pixel is above the cutoff. *)
Lemma boundingRect_bright_cases g :
  (¬ has_bright_pixel g ∧
   boundingRect_px (map (map (thresh_binary THRESH 255)) g) = (0, 0, 0, 0)) ∨
  (has_bright_pixel g ∧
   ∃ x y bw bh,
     boundingRect_px (map (map (thresh_binary THRESH 255)) g) = (x, y, bw, bh) ∧
     0 < bw ∧ 0 < bh).
Proof.
  destruct (boundingRect_px_cases (map (map (thresh_binary THRESH 255)) g))
    as [[Hnz Hz]|(xmin & xmax & ymin & ymax & Hr & ? & ? & [r Hin] & _)].
  - left. split; [|done]. intros (r & c & p & Hp & Hb).
    assert ((r, c) ∈ nonzero_coords 0 (map (map (thresh_binary THRESH 255)) g))
      as Hin by (apply nonzero_coords_thresholded; eauto).
    rewrite Hnz in Hin. by apply elem_of_nil in Hin.
  - right. split.
    + apply nonzero_coords_thresholded in Hin as (p & Hp & Hb).
      by exists r, xmin, p.
    + eexists _, _, _, _. split; [exact Hr|]. lia.
Qed.

(** Every pixel above the cutoff lies in the bounding rectangle of the
    thresholded image. *)
Lemma boundingRect_contains_bright g x y bw bh r c p :
  boundingRect_px (map (map (thresh_binary THRESH 255)) g) = (x, y, bw, bh) →
  pixel g r c = Some p → THRESH < p →
  x <= Z.of_nat c < x + bw ∧ y <= Z.of_nat r < y + bh.
Proof.
  intros Hbb Hp Hb.
  assert ((r, c) ∈ nonzero_coords 0 (map (map (thresh_binary THRESH 255)) g))
    as Hin by (apply nonzero_coords_thresholded; eauto).
  destruct (boundingRect_px_cases (map (map (thresh_binary THRESH 255)) g))
    as [[Hnz _]|(xmin & xmax & ymin & ymax & Hr & _ & _ & _ & _ & _ & _ & Hall)].
  - rewrite Hnz in Hin. by apply elem_of_nil in Hin.
  - rewrite Hr in Hbb. injection Hbb as <- <- <- <-.
    destruct (Hall r c Hin). lia.
Qed.

Lemma fresh_insert2_None (h : gmap positive ndarray) k1 a1 k2 a2 :
  h !! fresh (dom (<[k2 := a2]> (<[k1 := a1]> h))) = None.
Proof.
  pose proof (fresh_insert_None (<[k1 := a1]> h) k2 a2) as H.
  destruct (decide (k1 = fresh (dom (<[k2 := a2]> (<[k1 := a1]> h)))))
    as [Heq|Hne].
  - rewrite <- Heq, lookup_insert_eq in H. discriminate.
  - by rewrite lookup_insert_ne in H.
Qed.

Section NormaliserMore.

Context {cv : OpenCV}.

(** X4: on a single-channel image the normaliser returns (the value [None])
    exactly when some pixel is above the cutoff; on an image without such a
    pixel it fails with the library's error. *)
Theorem bb_resize_succeeds_iff_bright (w : world) (l : loc) (g : gray_px) :
  rect g →
  heap w !! l = Some (Gray g) →
  (has_bright_pixel g ∧ (bb_resize (Some l) w).1 = Ok None) ∨
  (¬ has_bright_pixel g ∧ (bb_resize (Some l) w).1 = Raise CvError).
Proof.
  intros Hrect E.
  destruct (boundingRect_bright_cases g)
    as [[Hdark Hbb]|[Hbright (x & y & bw & bh & Hbb & Hbw & Hbh)]].
  - right. split; [done|].
    rewrite (bb_resize_run w l g E _ _ [] eq_refl
               (bb_canvas_degenerate g 0 0 0 0 Hbb (or_introl eq_refl)) eq_refl).
    reflexivity.
  - left. split; [done|].
    destruct (bb_canvas_spec g x y bw bh Hrect Hbb Hbw Hbh)
      as (canvas & Hc & Hrows & Hcols & _).
    rewrite (bb_resize_run w l g E _ _ canvas eq_refl Hc eq_refl).
    assert (is_empty (Gray canvas) = false) as ->; [|done].
    simpl. rewrite Hrows, Hcols.
    apply orb_false_intro; apply Z.eqb_neq; lia.
Qed.

(** X5: no pixel above the cutoff is lost: each one is found on the canvas,
    moved by the offset of the bounding rectangle and the padding. *)
Theorem bb_resize_keeps_bright_pixels
    (w : world) (l : loc) (g : gray_px) (x y bw bh : Z) :
  rect g →
  heap w !! l = Some (Gray g) →
  boundingRect_px (map (map (thresh_binary THRESH 255)) g) = (x, y, bw, bh) →
  has_bright_pixel g →
  ∃ (w' : world) (lc : loc) (canvas : gray_px),
    bb_resize (Some l) w = (Ok None, w') ∧
    heap w' !! lc = Some (Gray canvas) ∧
    ∀ r c p, pixel g r c = Some p → THRESH < p →
      at_xy canvas ((Z.max bw bh - bw) / 2 + (Z.of_nat c - x))
                   ((Z.max bw bh - bh) / 2 + (Z.of_nat r - y)) = Some p.
Proof.
  intros Hrect E Hbb (r0 & c0 & p0 & Hp0 & Hb0).
  destruct (boundingRect_contains_bright g x y bw bh r0 c0 p0 Hbb Hp0 Hb0)
    as [Hx0 Hy0].
  assert (0 < bw) as Hbw by lia. assert (0 < bh) as Hbh by lia.
  destruct (bb_canvas_spec g x y bw bh Hrect Hbb Hbw Hbh)
    as (canvas & Hc & Hrows & Hcols & _ & Hcopy & _).
  rewrite (bb_resize_run w l g E _ _ canvas eq_refl Hc eq_refl).
  assert (is_empty (Gray canvas) = false) as ->.
  { simpl. rewrite Hrows, Hcols.
    apply orb_false_intro; apply Z.eqb_neq; lia. }
  eexists _, _, canvas. split; [reflexivity|].
  split; [heap_lookup|].
  intros r c p Hp Hb.
  destruct (boundingRect_contains_bright g x y bw bh r c p Hbb Hp Hb)
    as [Hx Hy].
  destruct (Hcopy (Z.of_nat c - x) (Z.of_nat r - y)) as (q & Hq & Hcanvas);
    [lia|lia|].
  rewrite Hcanvas. rewrite <- Hq. unfold at_xy.
  destruct (boundingRect_px_inside _ _ _ _ _ (rect_map _ _ Hrect) Hbb)
    as [?|(Hx1 & Hy1 & _)]; [lia|].
  rewrite andb_true_intro by (split; apply Z.leb_le; lia).
  replace (Z.to_nat (y + (Z.of_nat r - y))) with r by lia.
  replace (Z.to_nat (x + (Z.of_nat c - x))) with c by lia.
  by rewrite Hp.
Qed.

(** X7: the resized image is computed and dropped: when the normaliser
    returns, the store holds a new array, the canvas of the input resized
    to 512 by 512 pixels, the input is as it was, and the value handed back
    is [None]. *)
Theorem bb_resize_discards_result (w : world) (l : loc) (g : gray_px) :
  rect g →
  heap w !! l = Some (Gray g) →
  has_bright_pixel g →
  ∃ (w' : world) (lr : loc) (canvas : gray_px),
    bb_resize (Some l) w = (Ok None, w') ∧
    bb_canvas g = Some canvas ∧
    heap w !! lr = None ∧
    heap w' !! lr = Some (resize_px (Gray canvas) STD_RES STD_RES) ∧
    height (resize_px (Gray canvas) STD_RES STD_RES) = STD_RES ∧
    width (resize_px (Gray canvas) STD_RES STD_RES) = STD_RES ∧
    heap w' !! l = Some (Gray g).
Proof.
  intros Hrect E Hbright.
  destruct (boundingRect_bright_cases g)
    as [[Hdark _]|[_ (x & y & bw & bh & Hbb & Hbw & Hbh)]]; [done|].
  destruct (bb_canvas_spec g x y bw bh Hrect Hbb Hbw Hbh)
    as (canvas & Hc & Hrows & Hcols & _).
  rewrite (bb_resize_run w l g E _ _ canvas eq_refl Hc eq_refl).
  assert (is_empty (Gray canvas) = false) as ->.
  { simpl. rewrite Hrows, Hcols.
    apply orb_false_intro; apply Z.eqb_neq; lia. }
  eexists _, _, canvas. split; [reflexivity|]. split; [done|].
  cbn [heap set_heap].
  split; [apply fresh_insert2_None|].
  split; [apply lookup_insert_eq|].
  split; [by apply rows_tabulate|].
  split; [by apply cols_tabulate|].
  solve [heap_lookup].
Qed.

End NormaliserMore.

Lemma bb_resize_succeeds_iff_bright_witness :
  (bb_resize (cv := test_cv (λ _ _, None) (λ _ _, None)) (Some 1%positive)
     (one_image (Gray [[0; 31]; [0; 0]]))).1 = Ok None ∧
  (bb_resize (cv := test_cv (λ _ _, None) (λ _ _, None)) (Some 1%positive)
     (one_image (Gray [[0; 30]; [0; 0]]))).1 = Raise CvError.
Proof.
  split.
  - destruct (bb_resize_succeeds_iff_bright
                (cv := test_cv (λ _ _, None) (λ _ _, None))
                (one_image (Gray [[0; 31]; [0; 0]])) 1%positive [[0; 31]; [0; 0]])
      as [[_ H]|[Hdark _]]; [repeat constructor|reflexivity|exact H|].
    exfalso. apply Hdark. exists 0%nat, 1%nat, 31. split; [reflexivity|].
    vm_compute. reflexivity.
  - destruct (bb_resize_succeeds_iff_bright
                (cv := test_cv (λ _ _, None) (λ _ _, None))
                (one_image (Gray [[0; 30]; [0; 0]])) 1%positive [[0; 30]; [0; 0]])
      as [[Hbright _]|[_ H]]; [repeat constructor|reflexivity| |exact H].
    exfalso. destruct Hbright as (r & c & p & Hp & Hb).
    destruct r as [|[|r]], c as [|[|c]]; vm_compute in Hp; try discriminate;
      injection Hp as <-; vm_compute in Hb; discriminate.
Defined.

Lemma bb_resize_keeps_bright_pixels_witness :
  ∃ (w' : world) (lc : loc) (canvas : gray_px),
    bb_resize (cv := test_cv (λ _ _, None) (λ _ _, None)) (Some 1%positive)
      (one_image (Gray [[0; 0; 0; 0]; [0; 40; 0; 60]; [0; 0; 0; 0]]))
    = (Ok None, w') ∧
    heap w' !! lc = Some (Gray canvas) ∧
    at_xy canvas 0 1 = Some 40 ∧ at_xy canvas 2 1 = Some 60.
Proof.
  destruct (bb_resize_keeps_bright_pixels
              (cv := test_cv (λ _ _, None) (λ _ _, None))
              (one_image (Gray [[0; 0; 0; 0]; [0; 40; 0; 60]; [0; 0; 0; 0]]))
              1%positive [[0; 0; 0; 0]; [0; 40; 0; 60]; [0; 0; 0; 0]] 1 1 3 1)
    as (w' & lc & canvas & Hrun & Hlc & Hkeep).
  - repeat constructor.
  - reflexivity.
  - reflexivity.
  - exists 1%nat, 1%nat, 40. split; [reflexivity|]. vm_compute. reflexivity.
  - exists w', lc, canvas. split; [exact Hrun|]. split; [exact Hlc|].
    split.
    + apply (Hkeep 1%nat 1%nat 40); [reflexivity|vm_compute; reflexivity].
    + apply (Hkeep 1%nat 3%nat 60); [reflexivity|vm_compute; reflexivity].
Defined.

Lemma bb_resize_discards_result_witness :
  ∃ (w' : world) (lr : loc),
    bb_resize (cv := test_cv (λ _ _, None) (λ _ _, None)) (Some 1%positive)
      (one_image (Gray [[0; 0; 0]; [0; 40; 50]]))
    = (Ok None, w') ∧
    heap (one_image (Gray [[0; 0; 0]; [0; 40; 50]])) !! lr = None ∧
    heap w' !! lr
    = Some (resize_px (cv := test_cv (λ _ _, None) (λ _ _, None))
              (Gray [[40; 50]; [0; 0]]) STD_RES STD_RES) ∧
    heap w' !! 1%positive = Some (Gray [[0; 0; 0]; [0; 40; 50]]).
Proof.
  destruct (bb_resize_discards_result
              (cv := test_cv (λ _ _, None) (λ _ _, None))
              (one_image (Gray [[0; 0; 0]; [0; 40; 50]])) 1%positive
              [[0; 0; 0]; [0; 40; 50]])
    as (w' & lr & canvas & Hrun & Hc & Hnew & Hlr & _ & _ & Hl).
  - repeat constructor.
  - reflexivity.
  - exists 1%nat, 1%nat, 40. split; [reflexivity|]. vm_compute. reflexivity.
  - vm_compute in Hc. injection Hc as <-.
    exists w', lr. split; [exact Hrun|]. split; [exact Hnew|].
    split; [exact Hlr|exact Hl].
Defined.

(** ** Loader without resize, bounding-box experiment, driver *)

Section Driver.

Context {cv : OpenCV} {fl : FloatOps}.

Lemma load_image_plain_run path grayscale w :
  load_image path grayscale false false w =
    match imread_file path grayscale with
    | Some a => (Ok (Some (fresh (dom (heap w)))),
                 set_heap (<[fresh (dom (heap w)) := a]> (heap w)) w)
    | None => (Ok None, w)
    end.
Proof.
  unfold load_image, cv_imread.
  destruct (imread_file path grayscale); reflexivity.
Qed.

(** X8: a file that cannot be decoded goes unnoticed without [resize]: the
    loader returns [None] and raises nothing; with [resize] the missing
    [shape] raises [AttributeError].  The store is untouched either way. *)
Theorem load_image_unreadable_file (path : string) (grayscale : bool) (w : world) :
  imread_file path grayscale = None →
  load_image path grayscale false false w = (Ok None, w) ∧
  load_image path grayscale false true w = (Raise AttributeError, w).
Proof.
  intros E. split.
  - by rewrite load_image_plain_run, E.
  - unfold load_image, cv_imread. rewrite E. reflexivity.
Qed.

(** The bounding-box experiment, step by step. *)
Lemma experiment_bounding_box_run path w g canvas h0 h1 h2 :
  imread_file path true = Some (Gray g) →
  bb_canvas g = Some canvas →
  h0 = <[fresh (dom (heap w)) := Gray g]> (heap w) →
  h1 = <[fresh (dom h0) := Gray (map (map (thresh_binary THRESH 255)) g)]> h0 →
  h2 = <[fresh (dom h1) := Gray canvas]> h1 →
  experiment_bounding_box path w =
    if is_empty (Gray canvas) then (Raise CvError, set_heap h2 w)
    else (Ok None,
          add_shown "Resized Image" (resize_px (Gray canvas) STD_RES STD_RES)
            (set_heap (<[fresh (dom h2) := resize_px (Gray canvas) STD_RES STD_RES]> h2) w)).
Proof.
  intros E Hc -> -> ->. unfold experiment_bounding_box, bb_canvas in *.
  rewrite (bind_ok _ _ w _ _ (eq_trans (load_image_plain_run path true w)
                                ltac:(rewrite E; reflexivity))).
  erewrite bind_ok by run. cbv beta iota.
  erewrite bind_ok by run. simpl cv_threshold_px.
  destruct (boundingRect_px (map (map (thresh_binary THRESH 255)) g))
    as [[[x y] bw] bh].
  cbv beta iota zeta. unfold np_zeros.
  erewrite bind_ok by run. cbv beta iota.
  erewrite bind_ok by run. cbv beta iota.
  erewrite bind_ok.
  2:{ erewrite np_setslice_run by heap_lookup. rewrite Hc. reflexivity. }
  cbn [heap set_heap]. rewrite insert_insert_eq.
  unfold mbind at 1, M_bind at 1.
  erewrite cv_resize_dsize_run by heap_lookup.
  destruct (is_empty (Gray canvas)); [reflexivity|].
  change ((STD_RES <=? 0) || (STD_RES <=? 0)) with false. cbv iota.
  unfold cv_imshow, cv_arg. erewrite bind_ok by run. reflexivity.
Qed.

(** The experiment on a usable file, as the driver loop needs it. *)
Lemma experiment_bounding_box_on_bright path w g :
  imread_file path true = Some (Gray g) →
  rect g →
  has_bright_pixel g →
  ∃ (w' : world) (canvas : gray_px),
    experiment_bounding_box path w = (Ok None, w') ∧
    bb_canvas g = Some canvas ∧
    shown w' = shown w ++
      [("Resized Image", resize_px (Gray canvas) STD_RES STD_RES)] ∧
    height (resize_px (Gray canvas) STD_RES STD_RES) = STD_RES ∧
    width (resize_px (Gray canvas) STD_RES STD_RES) = STD_RES.
Proof.
  intros E Hrect Hbright.
  destruct (boundingRect_bright_cases g)
    as [[Hdark _]|[_ (x & y & bw & bh & Hbb & Hbw & Hbh)]]; [done|].
  destruct (bb_canvas_spec g x y bw bh Hrect Hbb Hbw Hbh)
    as (canvas & Hc & Hrows & Hcols & _).
  rewrite (experiment_bounding_box_run path w g canvas _ _ _ E Hc
             eq_refl eq_refl eq_refl).
  assert (is_empty (Gray canvas) = false) as ->.
  { simpl. rewrite Hrows, Hcols.
    apply orb_false_intro; apply Z.eqb_neq; lia. }
  eexists _, canvas. split; [reflexivity|]. split; [done|].
  split; [reflexivity|].
  split; [by apply height_resize_px|by apply width_resize_px].
Qed.


(** X10: on a file that decodes to a single-channel image with a pixel above the
    cutoff, the experiment shows one image, in the window "Resized Image":
    the canvas built from the file at its full resolution, resized to 512 by
    512; it returns [None] and leaves the globals alone. *)
Theorem experiment_bounding_box_shows (path : string) (w : world) (g : gray_px) :
  imread_file path true = Some (Gray g) →
  rect g →
  has_bright_pixel g →
  ∃ (w' : world) (canvas : gray_px),
    experiment_bounding_box path w = (Ok None, w') ∧
    bb_canvas g = Some canvas ∧
    shown w' = shown w ++
      [("Resized Image", resize_px (Gray canvas) STD_RES STD_RES)] ∧
    height (resize_px (Gray canvas) STD_RES STD_RES) = STD_RES ∧
    width (resize_px (Gray canvas) STD_RES STD_RES) = STD_RES ∧
    globals w' = globals w.
Proof.
  intros E Hrect Hbright.
  destruct (boundingRect_bright_cases g)
    as [[Hdark _]|[_ (x & y & bw & bh & Hbb & Hbw & Hbh)]]; [done|].
  destruct (bb_canvas_spec g x y bw bh Hrect Hbb Hbw Hbh)
    as (canvas & Hc & Hrows & Hcols & _).
  rewrite (experiment_bounding_box_run path w g canvas _ _ _ E Hc
             eq_refl eq_refl eq_refl).
  assert (is_empty (Gray canvas) = false) as ->.
  { simpl. rewrite Hrows, Hcols.
    apply orb_false_intro; apply Z.eqb_neq; lia. }
  eexists _, canvas. split; [reflexivity|]. split; [done|].
  split; [reflexivity|].
  split; [by apply height_resize_px|].
  split; [by apply width_resize_px|reflexivity].
Qed.

(** The experiment on a file that cannot be decoded, as the driver loop
    needs it. *)
Lemma experiment_bounding_box_on_unreadable path w :
  imread_file path true = None →
  experiment_bounding_box path w
  = (Raise TypeError,
     set_heap (<[fresh (dom (heap w)) := Gray (zeros 0 0)]> (heap w)) w).
Proof.
  intros E. unfold experiment_bounding_box.
  rewrite (bind_ok _ _ w _ _ (eq_trans (load_image_plain_run path true w)
                                ltac:(rewrite E; reflexivity))).
  reflexivity.
Qed.

(** X11: on a file without a pixel above the cutoff the experiment fails with
    the library's error and shows nothing. *)
Theorem experiment_bounding_box_dark (path : string) (w : world) (g : gray_px) :
  imread_file path true = Some (Gray g) →
  ¬ has_bright_pixel g →
  ∃ w' : world,
    experiment_bounding_box path w = (Raise CvError, w') ∧
    shown w' = shown w.
Proof.
  intros E Hdark.
  destruct (boundingRect_bright_cases g) as [[_ Hbb]|[Hbright _]]; [|done].
  rewrite (experiment_bounding_box_run path w g [] _ _ _ E
             (bb_canvas_degenerate g 0 0 0 0 Hbb (or_introl eq_refl))
             eq_refl eq_refl eq_refl).
  eexists. split; reflexivity.
Qed.

(** X22: a file that cannot be decoded is not noticed when it is loaded,
    thresholded and measured: [None] passes through [threshold], and its
    bounding rectangle is (0, 0, 0, 0).  The experiment fails only when it
    takes the region of interest out of it, with [TypeError], after it has
    allocated an empty canvas; nothing is shown. *)
Theorem experiment_bounding_box_unreadable (path : string) (w : world) :
  imread_file path true = None →
  ∃ (w' : world) (lc : loc),
    experiment_bounding_box path w = (Raise TypeError, w') ∧
    heap w !! lc = None ∧
    heap w' !! lc = Some (Gray []) ∧
    shown w' = shown w ∧
    threshold None w = (Ok None, w) ∧
    cv_boundingRect None w = (Ok (0, 0, 0, 0), w).
Proof.
  intros E. rewrite (experiment_bounding_box_on_unreadable path w E).
  eexists _, _. split; [reflexivity|].
  split; [apply fresh_heap_None|].
  split; [apply lookup_insert_eq|]. by repeat split.
Qed.

End Driver.

Section DriverLoop.

Context {cv : OpenCV} {fl : FloatOps}.

(** The loop of the driver over usable files: one view per file, the view
    of that file, in the order of the listing. *)
Lemma main_usable_files (listing : list string) :
  ∀ w : world,
    Forall usable_file listing →
    ∃ (w' : world) (views : list (string * ndarray)),
      main listing w = (Ok tt, w') ∧
      shown w' = shown w ++ views ∧
      Forall2 (λ file_path view, bounding_box_view file_path = Some view)
              listing views ∧
      length views = length listing ∧
      Forall resized_view views.
Proof.
  induction listing as [|f fs IH]; intros w Hall.
  - exists w, []. split; [reflexivity|]. split; [by rewrite app_nil_r|].
    by repeat split.
  - apply Forall_cons in Hall as [(g & E & Hrect & Hbright) Hfs].
    destruct (experiment_bounding_box_on_bright _ w g E Hrect Hbright)
      as (w1 & canvas & Hrun & Hc & Hshown & Hh & Hw).
    destruct (IH w1 Hfs)
      as (w' & views & Hmain & Hshown' & Hviews & Hlen & Hsize).
    exists w', (("Resized Image", resize_px (Gray canvas) STD_RES STD_RES) :: views).
    split.
    + unfold main in *. cbn [for_each].
      erewrite bind_ok; [exact Hmain|].
      erewrite bind_ok by exact Hrun. reflexivity.
    + split; [by rewrite Hshown', Hshown, <- app_assoc|].
      split.
      { apply Forall2_cons. split; [|done].
        unfold bounding_box_view. rewrite E, Hc. reflexivity. }
      split; [simpl; by rewrite Hlen|].
      apply Forall_cons. split; [|done]. by split.
Qed.

(** X12: when every file of the directory is usable, the driver runs through
    and shows the files' views in the order of the listing: the view at
    each position is the one computed from the file at that position, the
    canvas of the decoded file resized to 512 by 512. *)
Theorem main_shows_every_file (listing : list string) (w : world) :
  Forall usable_file listing →
  ∃ (w' : world) (views : list (string * ndarray)),
    main listing w = (Ok tt, w') ∧
    shown w' = shown w ++ views ∧
    Forall2 (λ file_path view, bounding_box_view file_path = Some view)
            listing views ∧
    Forall resized_view views.
Proof.
  intros Hall.
  destruct (main_usable_files listing w Hall)
    as (w' & views & Hrun & Hshown & Hviews & _ & Hsize).
  by exists w', views.
Qed.


(** X23: a file of the directory that is not an image ends the run as well:
    the driver does not check what it lists, the experiment fails with
    [TypeError] on the file that cannot be decoded, after the views of the
    files before it, and the files after it are never opened. *)
Theorem main_stops_at_unreadable_file
    (good rest : list string) (bad : string) (w : world) :
  Forall usable_file good →
  imread_file ("data/train" +:+ "/" +:+ bad) true = None →
  ∃ (w' : world) (views : list (string * ndarray)),
    main (good ++ bad :: rest) w = (Raise TypeError, w') ∧
    shown w' = shown w ++ views ∧
    Forall2 (λ file_path view, bounding_box_view file_path = Some view)
            good views.
Proof.
  intros Hgood E.
  destruct (main_usable_files good w Hgood)
    as (w1 & views & Hmain & Hshown & Hviews & _).
  eexists _, views. split.
  - unfold main in *. rewrite for_each_app.
    erewrite bind_ok by exact Hmain. cbn [for_each].
    erewrite bind_raise; [reflexivity|].
    erewrite bind_raise; [reflexivity|].
    by apply experiment_bounding_box_on_unreadable.
  - split; [exact Hshown|exact Hviews].
Qed.

End DriverLoop.

(** ** Loader: images too thin to resize *)

Section ThinImages.

Context {cv : OpenCV} {fl : FloatOps} {ieee : IEEE754 fl}.

Local Open Scope Q_scope.

Lemma Q_thin_bounds (W x q p : Q) :
  1 <= W → 0 <= x → W * x <= 1 # 4 →
  x - ulp_half * x <= q → q <= x + ulp_half * x →
  W * q - ulp_half * (W * q) <= p → p <= W * q + ulp_half * (W * q) →
  0 <= p ∧ p <= 1 # 3.
Proof.
  unfold ulp_half. change (2 ^ 53)%positive with 9007199254740992%positive.
  intros HW Hx Hs Hq1 Hq2 Hp1 Hp2.
  assert (W * (x - (1 # 9007199254740992) * x) <= W * q) as L1
    by (apply Qmult_le_l; lra).
  assert (W * q <= W * (x + (1 # 9007199254740992) * x)) as L2
    by (apply Qmult_le_l; lra).
  assert (0 <= W * x) as L0 by (apply Qmult_le_0_compat; lra).
  assert (W * (x - (1 # 9007199254740992) * x)
          == W * x - (1 # 9007199254740992) * (W * x)) as E1 by ring.
  assert (W * (x + (1 # 9007199254740992) * x)
          == W * x + (1 # 9007199254740992) * (W * x)) as E2 by ring.
  rewrite E1 in L1. rewrite E2 in L2.
  set (t := W * q) in *. set (s := W * x) in *. clearbody t s. split; lra.
Qed.

(** The scaled width of an image at least 2048 times as high as it is wide
    rounds to zero. *)
Lemma scaled_width_zero (w h : Z) :
  (1 <= w)%Z → (2048 * w <= h)%Z → (h <= 2 ^ 53)%Z →
  (cvRound (fmul (float_of_int w)
                 (fdiv (float_of_int STD_RES) (float_of_int h))) <= 0)%Z.
Proof.
  intros Hw Hwh Hh. unfold STD_RES.
  set (A := float_of_int 512). set (B := float_of_int h).
  set (C := float_of_int w).
  assert (fval A == 512) as Ha by (apply float_of_int_exact; simpl; lia).
  assert (fval B == inject_Z h) as Hb by (apply float_of_int_exact; lia).
  assert (fval C == inject_Z w) as Hc by (apply float_of_int_exact; lia).
  assert (1 <= inject_Z h ∧ inject_Z h <= inject_Z (2 ^ 53)) as [Hh1 Hh2].
  { split; [change 1 with (inject_Z 1)|]; rewrite <- Zle_Qle; lia. }
  assert (1 <= inject_Z w) as Hw1
    by (change 1 with (inject_Z 1); rewrite <- Zle_Qle; lia).
  assert (inject_Z 2048 * inject_Z w <= inject_Z h) as Hwh1
    by (rewrite <- inject_Z_mult, <- Zle_Qle; lia).
  change (inject_Z 2048) with (2048 # 1) in Hwh1.
  assert (inject_Z h * (fval A / fval B) == 512) as Hx.
  { rewrite Ha, Hb. field. lra. }
  destruct (Q_quotient_bounds _ _ Hh1 Hh2 Hx) as [Hx1 Hx2].
  change (inject_Z (2 ^ 53)) with (9007199254740992 # 1) in Hh2.
  change (2 ^ 44)%positive with 17592186044416%positive in Hx1.
  assert (Qabs (fval (fdiv A B) - fval A / fval B)
          <= ulp_half * (fval A / fval B)) as Hq.
  { apply fdiv_accurate; rewrite ?Ha, ?Hb;
      change (inject_Z (2 ^ 53)) with (9007199254740992 # 1); lra. }
  apply Qabs_Qle_condition in Hq as [Hq1 Hq2].
  set (x := fval A / fval B) in *. set (q := fval (fdiv A B)) in *.
  unfold ulp_half in Hq1, Hq2.
  change (2 ^ 53)%positive with 9007199254740992%positive in Hq1, Hq2.
  assert (inject_Z w * x <= 1 # 4) as Hs.
  { assert ((2048 # 1) * inject_Z w * x <= inject_Z h * x)
      by (apply Qmult_le_compat_r; lra).
    lra. }
  assert (Qabs (fval (fmul C (fdiv A B)) - fval C * q)
          <= ulp_half * (fval C * q)) as Hp.
  { apply fmul_accurate; fold q; rewrite ?Hc;
      change (inject_Z (2 ^ 60)) with (1152921504606846976 # 1);
      change (2 ^ 60)%positive with 1152921504606846976%positive; lra. }
  rewrite Hc in Hp. apply Qabs_Qle_condition in Hp as [Hp1 Hp2].
  set (p := fval (fmul C (fdiv A B))) in *.
  destruct (Q_thin_bounds (inject_Z w) x q p Hw1) as [Hlo Hhi];
    try (unfold ulp_half in *;
         change (2 ^ 53)%positive with 9007199254740992%positive in *; lra).
  assert (Qabs (inject_Z (cvRound (fmul C (fdiv A B))) - p) <= 1 # 2) as Hn.
  { apply cvRound_nearest. fold p. apply Qabs_Qle_condition.
    change (inject_Z (2 ^ 30)) with (1073741824 # 1). split; lra. }
  apply Qabs_Qle_condition in Hn as [Hn1 Hn2].
  set (n := cvRound (fmul C (fdiv A B))) in *.
  assert (inject_Z n < inject_Z 1) as U
    by (change (inject_Z 1) with (1 # 1); lra).
  rewrite <- Zlt_Qlt in U. lia.
Qed.

Local Close Scope Q_scope.

(** X9: under IEEE 754 arithmetic, an image at least 2048 times as high as it
    is wide cannot be loaded with [resize]: its scaled width rounds to zero
    and the library rejects the empty target size. *)
Theorem load_image_thin_image_fails
    (path : string) (grayscale : bool) (w : world) (a : ndarray) :
  imread_file path grayscale = Some a →
  1 <= width a →
  2048 * width a <= height a →
  height a <= 2 ^ 53 →
  ∃ w' : world,
    load_image path grayscale false true w = (Raise CvError, w').
Proof.
  intros E Hw Hwh Hh.
  rewrite (load_image_resize_run _ _ _ _ _ E) by (done || lia).
  pose proof (scaled_width_zero (width a) (height a) Hw Hwh Hh) as Hdw.
  unfold resize_to. rewrite is_empty_false by lia.
  rewrite (proj2 (Z.leb_le _ _) Hdw). simpl. by eexists.
Qed.

End ThinImages.

Lemma load_image_unreadable_file_witness :
  load_image (cv := test_cv sample_disk (λ _ _, None)) (fl := exact_float)
    "data/train/missing.jpeg" true false false empty_world
  = (Ok None, empty_world) ∧
  load_image (cv := test_cv sample_disk (λ _ _, None)) (fl := exact_float)
    "data/train/missing.jpeg" true false true empty_world
  = (Raise AttributeError, empty_world).
Proof.
  apply (load_image_unreadable_file
           (cv := test_cv sample_disk (λ _ _, None)) (fl := exact_float)).
  reflexivity.
Defined.

Lemma usable_a : usable_file (H := test_cv sample_disk (λ _ _, None)) "a.jpeg".
Proof.
  exists [[0; 40]; [0; 0]]. split; [reflexivity|].
  split; [repeat constructor|].
  exists 0%nat, 1%nat, 40. split; [reflexivity|]. vm_compute. reflexivity.
Defined.

Lemma usable_c : usable_file (H := test_cv sample_disk (λ _ _, None)) "c.jpeg".
Proof.
  exists [[99]]. split; [reflexivity|].
  split; [repeat constructor|].
  exists 0%nat, 0%nat, 99. split; [reflexivity|]. vm_compute. reflexivity.
Defined.

Lemma dark_b : ¬ has_bright_pixel [[0; 0]; [0; 0]].
Proof.
  intros (r & c & p & Hp & Hb).
  destruct r as [|[|r]], c as [|[|c]]; vm_compute in Hp; try discriminate;
    injection Hp as <-; vm_compute in Hb; discriminate.
Defined.

Lemma experiment_bounding_box_shows_witness :
  ∃ (w' : world) (canvas : gray_px),
    experiment_bounding_box (cv := test_cv sample_disk (λ _ _, None))
      (fl := exact_float) "data/train/a.jpeg" empty_world = (Ok None, w') ∧
    bb_canvas [[0; 40]; [0; 0]] = Some canvas ∧
    shown w' = shown empty_world ++
      [("Resized Image",
        resize_px (cv := test_cv sample_disk (λ _ _, None))
          (Gray canvas) STD_RES STD_RES)] ∧
    height (resize_px (cv := test_cv sample_disk (λ _ _, None))
              (Gray canvas) STD_RES STD_RES) = STD_RES ∧
    width (resize_px (cv := test_cv sample_disk (λ _ _, None))
             (Gray canvas) STD_RES STD_RES) = STD_RES ∧
    globals w' = globals empty_world.
Proof.
  apply (experiment_bounding_box_shows
           (cv := test_cv sample_disk (λ _ _, None)) (fl := exact_float)
           "data/train/a.jpeg" empty_world [[0; 40]; [0; 0]]).
  - reflexivity.
  - repeat constructor.
  - exists 0%nat, 1%nat, 40. split; [reflexivity|]. vm_compute. reflexivity.
Defined.

Lemma experiment_bounding_box_dark_witness :
  ∃ w' : world,
    experiment_bounding_box (cv := test_cv sample_disk (λ _ _, None))
      (fl := exact_float) "data/train/b.jpeg" empty_world
    = (Raise CvError, w') ∧
    shown w' = shown empty_world.
Proof.
  apply (experiment_bounding_box_dark
           (cv := test_cv sample_disk (λ _ _, None)) (fl := exact_float)
           "data/train/b.jpeg" empty_world [[0; 0]; [0; 0]]).
  - reflexivity.
  - exact dark_b.
Defined.

Lemma experiment_bounding_box_unreadable_witness :
  ∃ w' : world,
    experiment_bounding_box (cv := test_cv sample_disk (λ _ _, None))
      (fl := exact_float) "data/train/notes.txt" empty_world
    = (Raise TypeError, w') ∧
    shown w' = [].
Proof.
  destruct (experiment_bounding_box_unreadable
              (cv := test_cv sample_disk (λ _ _, None)) (fl := exact_float)
              "data/train/notes.txt" empty_world)
    as (w' & lc & Hrun & _ & _ & Hs & _); [reflexivity|].
  exists w'. split; [exact Hrun|exact Hs].
Defined.

Lemma main_shows_every_file_witness :
  ∃ (w' : world) (views : list (string * ndarray)),
    main (cv := test_cv sample_disk (λ _ _, None)) (fl := exact_float)
      ["a.jpeg"; "c.jpeg"] empty_world = (Ok tt, w') ∧
    shown w' = shown empty_world ++ views ∧
    Forall2 (λ file_path view,
               bounding_box_view (H := test_cv sample_disk (λ _ _, None))
                 file_path = Some view)
            ["a.jpeg"; "c.jpeg"] views ∧
    Forall resized_view views.
Proof.
  apply (main_shows_every_file
           (cv := test_cv sample_disk (λ _ _, None)) (fl := exact_float)
           ["a.jpeg"; "c.jpeg"] empty_world).
  repeat constructor; [exact usable_a|exact usable_c].
Defined.


Lemma main_stops_at_unreadable_file_witness :
  ∃ (w' : world) (views : list (string * ndarray)),
    main (cv := test_cv sample_disk (λ _ _, None)) (fl := exact_float)
      (["c.jpeg"] ++ "trainLabels.csv" :: ["a.jpeg"]) empty_world
    = (Raise TypeError, w') ∧
    shown w' = shown empty_world ++ views ∧
    Forall2 (λ file_path view,
               bounding_box_view (H := test_cv sample_disk (λ _ _, None))
                 file_path = Some view)
            ["c.jpeg"] views.
Proof.
  apply (main_stops_at_unreadable_file
           (cv := test_cv sample_disk (λ _ _, None)) (fl := exact_float)
           ["c.jpeg"] ["a.jpeg"] "trainLabels.csv" empty_world).
  - repeat constructor. exact usable_c.
  - reflexivity.
Defined.

Lemma load_image_thin_image_fails_witness :
  ∃ w' : world,
    load_image
      (cv := test_cv (λ _ _, Some (Gray (replicate 2048 [200]))) (λ _ _, None))
      (fl := exact_float) "strip.png" true false true empty_world
    = (Raise CvError, w').
Proof.
  apply (load_image_thin_image_fails
           (cv := test_cv (λ _ _, Some (Gray (replicate 2048 [200]))) (λ _ _, None))
           (fl := exact_float) (ieee := exact_float_ieee)
           "strip.png" true empty_world (Gray (replicate 2048 [200]))).
  - reflexivity.
  - vm_compute. discriminate.
  - vm_compute. discriminate.
  - vm_compute. discriminate.
Defined.

(** ** Notch experiment: the circle that cannot be painted out *)

Section NotchDisplay.

Context {cv : OpenCV} {fl : FloatOps}.

(** Loading with [resize] either fails or returns a live array; nothing is
    shown meanwhile. *)
Lemma load_image_resized_cases path grayscale w :
  (∃ e w', load_image path grayscale false true w = (Raise e, w') ∧
           shown w' = shown w) ∨
  (∃ l a w', load_image path grayscale false true w = (Ok (Some l), w') ∧
             heap w' !! l = Some a ∧ shown w' = shown w).
Proof.
  destruct (imread_file path grayscale) as [a|] eqn:E.
  - destruct (decide (height a = 0)) as [Hz|Hnz].
    + left. exists ZeroDivisionError. eexists. split.
      * unfold load_image, cv_imread. rewrite E.
        erewrite bind_ok by run. cbv beta iota.
        erewrite bind_ok by reflexivity. cbv beta iota.
        rewrite bind_ret.
        assert (shape a !! 0%nat = Some 0) as Hshape
          by (rewrite <- Hz; by destruct a).
        unfold get_shape, py_index, py_div.
        run_steps. rewrite Hshape. run_steps. reflexivity.
      * reflexivity.
    + rewrite (load_image_resize_run _ _ _ _ _ E) by done.
      unfold resize_to.
      destruct (is_empty a); [left; by eexists _, _|].
      destruct (_ || _); [left; by eexists _, _|].
      right. eexists _, _, _. split; [reflexivity|].
      split; [apply lookup_insert_eq|reflexivity].
  - left. exists AttributeError, w. split; [|reflexivity].
    unfold load_image, cv_imread. rewrite E. reflexivity.
Qed.

(** The detector on a three-channel image: the shape has three entries
    and cannot be unpacked into two. *)
Lemma hough_circles_color w l c :
  heap w !! l = Some (Color c) →
  hough_circles (Some l) w = (Raise ValueError, w).
Proof.
  intros E. unfold hough_circles, get_shape.
  erewrite bind_ok by run. cbv beta iota. reflexivity.
Qed.

(** The steps of the experiment up to the circle, when one is found: the
    thresholded copy is made, the loaded image is masked, and the first
    circle is on its way to [cv.circle]. *)
Lemma notch_detection_with_circle path w w1 l g c cs rest :
  load_image path true false true w = (Ok (Some l), w1) →
  heap w1 !! l = Some (Gray g) →
  HoughCircles_px (masked g) (globals w1) = Ok (Some ((c :: cs) :: rest)) →
  ∃ w' : world,
    experiment_notch_detection path w = (Raise CvError, w') ∧
    heap w' !! l = Some (Gray (masked g)) ∧
    shown w' = shown w1 ∧ globals w' = globals w1.
Proof.
  intros Hload E Hhough. unfold experiment_notch_detection.
  erewrite bind_ok by exact Hload. cbv beta.
  erewrite bind_ok by (apply threshold_run; exact E). cbv beta.
  erewrite bind_ok.
  2:{ rewrite (hough_circles_run _ l g) by heap_lookup.
      cbn [globals set_heap]. rewrite Hhough. reflexivity. }
  cbv beta. destruct c as [[x y] r].
  erewrite bind_ok by reflexivity. cbv beta iota.
  eexists. split; [reflexivity|].
  split; [solve [heap_lookup]|]. split; reflexivity.
Qed.

(** X14: when a circle is found, the experiment does not get past painting
    it out: the circle is a triple of 32-bit floats, [cv.circle] takes
    integers, and the call fails with the library's error.  Nothing is
    shown, and the loaded image stays masked in the store. *)
Theorem notch_detection_circle_refused
    (path : string) (w w1 : world) (l : loc) (g : gray_px)
    (c : Q * Q * Q) (cs : list (Q * Q * Q)) (rest : list (list (Q * Q * Q))) :
  load_image path true false true w = (Ok (Some l), w1) →
  heap w1 !! l = Some (Gray g) →
  HoughCircles_px (masked g) (globals w1) = Ok (Some ((c :: cs) :: rest)) →
  ∃ w' : world,
    experiment_notch_detection path w = (Raise CvError, w') ∧
    heap w' !! l = Some (Gray (masked g)) ∧
    shown w' = shown w1.
Proof.
  intros Hload E Hhough.
  destruct (notch_detection_with_circle path w w1 l g c cs rest Hload E Hhough)
    as (w' & Hrun & Hl & Hs & _).
  by exists w'.
Qed.

(** X18: the notch experiment cannot succeed.  Whatever the file and whatever
    the library computes, it ends in an exception before its first window
    is shown: the file does not load, or the image is not single-channel, or
    no circle is found and [circles[0]] is out of range, or a circle is
    found and [cv.circle] refuses its 32-bit floats. *)
Theorem notch_detection_never_completes (path : string) (w : world) :
  ∃ (e : exn) (w' : world),
    experiment_notch_detection path w = (Raise e, w') ∧
    shown w' = shown w.
Proof.
  unfold experiment_notch_detection.
  destruct (load_image_resized_cases path true w)
    as [(e & w1 & Hload & Hs1)|(l & a & w1 & Hload & E & Hs1)].
  { exists e, w1. split; [|done]. by erewrite bind_raise by exact Hload. }
  erewrite bind_ok by exact Hload. cbv beta.
  erewrite bind_ok by (apply threshold_run; exact E). cbv beta.
  set (w2 := set_heap _ w1).
  assert (heap w2 !! l = Some a) as E2 by (subst w2; solve [heap_lookup]).
  destruct a as [g|c].
  - pose proof (hough_circles_run w2 l g E2) as Hh.
    destruct (HoughCircles_px (masked g) (globals w2)) as [[[|[|q cs] rest]|]|e].
    + eexists _, _. split; [by erewrite bind_raise by exact Hh|done].
    + erewrite bind_ok by exact Hh. cbv beta.
      eexists _, _. split; [erewrite bind_raise; reflexivity|done].
    + erewrite bind_ok by exact Hh. cbv beta. destruct q as [[x y] r].
      erewrite bind_ok by reflexivity. cbv beta iota.
      eexists _, _. split; [reflexivity|done].
    + erewrite bind_ok by exact Hh. cbv beta.
      eexists _, _. split; [erewrite bind_raise; reflexivity|done].
    + eexists _, _. split; [by erewrite bind_raise by exact Hh|done].
  - eexists _, _. split.
    + erewrite bind_raise; [reflexivity|]. by apply (hough_circles_color w2 l c).
    + done.
Qed.

End NotchDisplay.

Lemma notch_detection_circle_refused_witness :
  ∃ w' : world,
    experiment_notch_detection
      (cv := test_cv (λ _ _, Some (Gray (replicate 512 [200; 200; 200; 200])))
                     (λ _ _, Some [[(5 # 2, 100 # 1, 300 # 1)]]))
      (fl := exact_float) "eye.jpeg" empty_world = (Raise CvError, w') ∧
    shown w' = [].
Proof.
  edestruct (notch_detection_circle_refused
               (cv := test_cv (λ _ _, Some (Gray (replicate 512 [200; 200; 200; 200])))
                              (λ _ _, Some [[(5 # 2, 100 # 1, 300 # 1)]]))
               (fl := exact_float) "eye.jpeg" empty_world)
    as (w' & Hrun & _ & Hshown).
  - vm_compute. reflexivity.
  - vm_compute. reflexivity.
  - reflexivity.
  - exists w'. split; [exact Hrun|exact Hshown].
Defined.

(** ** Threshold experiment: what the slider shows *)

Lemma shape_cv_threshold_px thresh maxval a :
  shape (cv_threshold_px thresh maxval a) = shape a.
Proof. destruct a; simpl; by rewrite rows_map, cols_map. Qed.

Section ThresholdExperiment.

Context {cv : OpenCV} {fl : FloatOps}.

(** One slider move: the loaded image, thresholded at the slider position,
    replaces the content of the threshold image and is shown. *)
Lemma thresh_callback_run (l lt : loc) (a t : ndarray) (pos : Z) (w : world) :
  heap w !! l = Some a →
  heap w !! lt = Some t →
  same_shape a t = true →
  (_ ← cv_threshold_dst (Some l) pos 255 (Some lt);
   cv_imshow "Threshold Experiment" (Some lt)) w
  = (Ok tt,
     add_shown "Threshold Experiment" (cv_threshold_px pos 255 a)
       (set_heap (<[lt := cv_threshold_px pos 255 a]> (heap w)) w)).
Proof.
  intros El Elt Hshape. unfold cv_threshold_dst, cv_imshow, cv_arg.
  erewrite bind_ok.
  2:{ run_steps. rewrite Hshape. run. }
  cbv beta. run.
Qed.

Lemma thresh_loop (l lt : loc) (a : ndarray) (events : list Z) :
  l ≠ lt →
  ∀ (w : world) (t : ndarray),
    heap w !! l = Some a →
    heap w !! lt = Some t →
    same_shape a t = true →
    ∃ w' : world,
      for_each events (λ pos,
        _ ← cv_threshold_dst (Some l) pos 255 (Some lt);
        cv_imshow "Threshold Experiment" (Some lt)) w = (Ok tt, w') ∧
      heap w' !! l = Some a ∧
      shown w' = shown w ++
        map (λ pos, ("Threshold Experiment", cv_threshold_px pos 255 a)) events.
Proof.
  intros Hne. induction events as [|pos events IH]; intros w t El Elt Hshape.
  - exists w. split; [reflexivity|]. split; [done|]. by rewrite app_nil_r.
  - destruct (IH (add_shown "Threshold Experiment" (cv_threshold_px pos 255 a)
                    (set_heap (<[lt := cv_threshold_px pos 255 a]> (heap w)) w))
                 (cv_threshold_px pos 255 a))
      as (w' & Hrun & Hl & Hshown).
    + cbn [heap add_shown set_heap]. by rewrite lookup_insert_ne.
    + cbn [heap add_shown set_heap]. apply lookup_insert_eq.
    + unfold same_shape. apply bool_decide_eq_true.
      by rewrite shape_cv_threshold_px.
    + exists w'. split.
      * cbn [for_each]. erewrite bind_ok; [exact Hrun|].
        by apply (thresh_callback_run l lt a t).
      * split; [done|]. rewrite Hshown. cbn [shown add_shown set_heap map].
        by rewrite <- app_assoc.
Qed.

(** X15: whatever the sequence of slider moves, each move shows the loaded image
    thresholded at the position of that move (earlier moves leave no
    trace), after the first view at the default cutoff and the view of the
    loaded image; the loaded image itself is never changed. *)
Theorem experiment_threshold_views
    (path : string) (events : list Z) (w w1 : world) (l : loc) (a : ndarray) :
  load_image path true false true w = (Ok (Some l), w1) →
  heap w1 !! l = Some a →
  ∃ w' : world,
    experiment_threshold path events w = (Ok None, w') ∧
    heap w' !! l = Some a ∧
    shown w' = shown w1 ++
      ("Threshold Experiment", cv_threshold_px THRESH 255 a) ::
      ("Original Image", a) ::
      map (λ pos, ("Threshold Experiment", cv_threshold_px pos 255 a)) events.
Proof.
  intros Hload E. unfold experiment_threshold.
  erewrite bind_ok by exact Hload. cbv beta.
  unfold cv_threshold at 1. erewrite bind_ok by run. cbv beta zeta.
  set (lt := fresh (dom (heap w1))).
  assert (l ≠ lt) as Hne
    by (apply not_eq_sym; subst lt; by eapply fresh_heap_ne).
  unfold cv_imshow at 2 3, cv_arg.
  erewrite bind_ok by run. cbv beta.
  erewrite bind_ok by run. cbv beta.
  edestruct (thresh_loop l lt a events Hne) as (w' & Hrun & Hl & Hshown);
    [| |by apply bool_decide_eq_true, eq_sym, (shape_cv_threshold_px THRESH 255)|].
  3:{ erewrite bind_ok by exact Hrun. cbv beta.
      exists w'. split; [reflexivity|]. split; [exact Hl|].
      rewrite Hshown. cbn [shown add_shown set_heap].
      by rewrite <- !app_assoc. }
  - solve [heap_lookup].
  - solve [heap_lookup].
Qed.

End ThresholdExperiment.

(** ** Hough experiment: the masked image and the sliders *)

Section HoughExperiment.

Context {cv : OpenCV} {fl : FloatOps}.

(** One view of the experiment when the transform reports no circle: the
    image is masked, and the masked image itself is shown. *)
Lemma show_hough_no_circle w l g :
  heap w !! l = Some (Gray g) →
  HoughCircles_px (masked g) (globals w) = Ok None →
  show_hough (Some l) w
  = (Ok tt,
     add_shown "Hough Circle Transform Experiment" (Gray (masked g))
       (set_heap (<[l := Gray (masked g)]> (heap w)) w)).
Proof.
  intros E Hh. unfold show_hough.
  erewrite bind_ok.
  2:{ rewrite (hough_circles_run w l g E), Hh. reflexivity. }
  cbv beta. unfold draw_hough_circles, cv_imshow, cv_arg.
  simpl bool_decide. cbv iota. run.
Qed.


(** Slider moves after which the transform reports no circle: each one
    shows the masked image again. *)
Lemma hough_loop (l : loc) (g : gray_px) (events : list hough_event) :
  masked g = g →
  ∀ w : world,
    heap w !! l = Some (Gray g) →
    Forall (λ p, HoughCircles_px g p = Ok None)
           (slider_states (globals w) events) →
    ∃ w' : world,
      for_each events (hough_callback (Some l)) w = (Ok tt, w') ∧
      heap w' !! l = Some (Gray g) ∧
      globals w' = foldl set_slider (globals w) events ∧
      shown w' = shown w ++
        replicate (length events) ("Hough Circle Transform Experiment", Gray g).
Proof.
  intros Hm. induction events as [|e events IH]; intros w E Hall.
  - exists w. split; [reflexivity|]. split; [done|]. split; [done|].
    by rewrite app_nil_r.
  - cbn [slider_states] in Hall. apply Forall_cons in Hall as [He Hrest].
    pose proof (show_hough_no_circle
                  (set_globals (set_slider (globals w) e) w) l g E) as Hshow.
    rewrite Hm in Hshow. specialize (Hshow He).
    destruct (IH (add_shown "Hough Circle Transform Experiment" (Gray g)
                    (set_heap (<[l := Gray g]> (heap w))
                       (set_globals (set_slider (globals w) e) w))))
      as (w' & Hrun & Hl & Hg & Hs);
      [apply lookup_insert_eq|exact Hrest|].
    exists w'. split.
    + cbn [for_each]. erewrite bind_ok; [exact Hrun|].
      unfold hough_callback. run_steps. exact Hshow.
    + split; [done|]. rewrite Hg, Hs.
      cbn [globals shown add_shown set_heap set_globals foldl length replicate].
      split; [done|]. by rewrite <- app_assoc.
Qed.




(** X16: as long as the transform reports no circle, the Hough experiment
    runs through: it masks the loaded image once and for all, and every
    view, the first one and the one after each slider move, is the masked
    image; the slider values stay in the globals when the experiment
    ends. *)
Theorem experiment_hough_views
    (path : string) (events : list hough_event) (w w1 : world)
    (l : loc) (g : gray_px) :
  load_image path true false true w = (Ok (Some l), w1) →
  heap w1 !! l = Some (Gray g) →
  Forall (λ p, HoughCircles_px (masked g) p = Ok None)
         (globals w1 :: slider_states (globals w1) events) →
  ∃ w' : world,
    experiment_hough path events w = (Ok None, w') ∧
    heap w' !! l = Some (Gray (masked g)) ∧
    globals w' = foldl set_slider (globals w1) events ∧
    shown w' = shown w1 ++
      replicate (S (length events))
        ("Hough Circle Transform Experiment", Gray (masked g)).
Proof.
  intros Hload E Hall. apply Forall_cons in Hall as [H0 Hall].
  unfold experiment_hough.
  erewrite bind_ok by exact Hload. cbv beta.
  erewrite bind_ok by (by apply show_hough_no_circle). cbv beta.
  destruct (hough_loop l (masked g) events (masked_idem g)
              (add_shown "Hough Circle Transform Experiment" (Gray (masked g))
                 (set_heap (<[l := Gray (masked g)]> (heap w1)) w1)))
    as (w' & Hrun & Hl & Hg & Hs); [apply lookup_insert_eq|exact Hall|].
  erewrite bind_ok by exact Hrun. cbv beta.
  exists w'. split; [reflexivity|]. split; [done|].
  rewrite Hg, Hs. split; [done|].
  cbn [shown add_shown set_heap replicate]. by rewrite <- app_assoc.
Qed.




End HoughExperiment.

Lemma experiment_threshold_views_witness :
  ∃ w' : world,
    experiment_threshold
      (cv := test_cv (λ _ _, Some (Gray (replicate 512 [20; 100]))) (λ _ _, None))
      (fl := exact_float) "eye.jpeg" [10; 200] empty_world = (Ok None, w') ∧
    shown w' =
      [("Threshold Experiment", Gray (replicate 512 [0; 255]));
       ("Original Image", Gray (replicate 512 [20; 100]));
       ("Threshold Experiment", Gray (replicate 512 [255; 255]));
       ("Threshold Experiment", Gray (replicate 512 [0; 0]))].
Proof.
  edestruct (experiment_threshold_views
               (cv := test_cv (λ _ _, Some (Gray (replicate 512 [20; 100])))
                              (λ _ _, None))
               (fl := exact_float) "eye.jpeg" [10; 200] empty_world)
    as (w' & Hrun & _ & Hshown).
  - vm_compute. reflexivity.
  - vm_compute. reflexivity.
  - exists w'. split; [exact Hrun|]. rewrite Hshown. vm_compute. reflexivity.
Defined.

Lemma experiment_hough_views_witness :
  ∃ w' : world,
    experiment_hough
      (cv := test_cv (λ _ _, Some (Gray (replicate 512 [200; 200; 200; 200])))
                     (λ _ _, None))
      (fl := exact_float) "eye.jpeg" [DP_slider 2; P2_slider 50] empty_world
    = (Ok None, w') ∧
    DP (globals w') = 2 ∧ P1 (globals w') = 140 ∧ P2 (globals w') = 50 ∧
    shown w'
    = replicate 3 ("Hough Circle Transform Experiment",
                   Gray (masked (replicate 512 [200; 200; 200; 200]))).
Proof.
  edestruct (experiment_hough_views
               (cv := test_cv (λ _ _, Some (Gray (replicate 512 [200; 200; 200; 200])))
                              (λ _ _, None))
               (fl := exact_float) "eye.jpeg" [DP_slider 2; P2_slider 50]
               empty_world)
    as (w' & Hrun & _ & Hg & Hshown).
  - vm_compute. reflexivity.
  - vm_compute. reflexivity.
  - repeat constructor.
  - exists w'. split; [exact Hrun|]. rewrite Hg, Hshown.
    repeat split; reflexivity.
Defined.





(** ** Bounding-box normaliser: no margin along the longer side *)

(** The edges of the bounding rectangle hold a pixel above the cutoff. *)
Lemma boundingRect_edges_bright g x y bw bh :
  boundingRect_px (map (map (thresh_binary THRESH 255)) g) = (x, y, bw, bh) →
  0 < bw →
  (∃ r p, pixel g r (Z.to_nat x) = Some p ∧ THRESH < p) ∧
  (∃ r p, pixel g r (Z.to_nat (x + bw - 1)) = Some p ∧ THRESH < p) ∧
  (∃ c p, pixel g (Z.to_nat y) c = Some p ∧ THRESH < p) ∧
  (∃ c p, pixel g (Z.to_nat (y + bh - 1)) c = Some p ∧ THRESH < p).
Proof.
  intros Hbb Hbw.
  destruct (boundingRect_px_cases (map (map (thresh_binary THRESH 255)) g))
    as [[_ Hz]|(xmin & xmax & ymin & ymax & Hr & ? & ? &
                [r1 H1] & [r2 H2] & [c3 H3] & [c4 H4] & _)].
  { rewrite Hz in Hbb. injection Hbb as <- <- <- <-. lia. }
  rewrite Hr in Hbb. injection Hbb as <- <- <- <-.
  apply nonzero_coords_thresholded in H1 as (p1 & ? & ?).
  apply nonzero_coords_thresholded in H2 as (p2 & ? & ?).
  apply nonzero_coords_thresholded in H3 as (p3 & ? & ?).
  apply nonzero_coords_thresholded in H4 as (p4 & ? & ?).
  rewrite !Nat2Z.id.
  replace (Z.to_nat (Z.of_nat xmin + (Z.of_nat xmax - Z.of_nat xmin + 1) - 1))
    with xmax by lia.
  replace (Z.to_nat (Z.of_nat ymin + (Z.of_nat ymax - Z.of_nat ymin + 1) - 1))
    with ymax by lia.
  split; [by exists r1, p1|]. split; [by exists r2, p2|].
  split; [by exists c3, p3|by exists c4, p4].
Qed.

Section NormaliserMargins.

Context {cv : OpenCV}.

(** X6: along the longer side of the bounding rectangle the canvas has no
    padding: when the rectangle is at least as wide as high, the first and
    the last column of the canvas each hold a pixel above the cutoff. *)
Theorem bb_resize_spans_width
    (w : world) (l : loc) (g : gray_px) (x y bw bh : Z) :
  rect g →
  heap w !! l = Some (Gray g) →
  boundingRect_px (map (map (thresh_binary THRESH 255)) g) = (x, y, bw, bh) →
  0 < bh → bh <= bw →
  ∃ (w' : world) (lc : loc) (canvas : gray_px),
    bb_resize (Some l) w = (Ok None, w') ∧
    heap w' !! lc = Some (Gray canvas) ∧
    cols canvas = bw ∧
    (∃ cy p, at_xy canvas 0 cy = Some p ∧ THRESH < p) ∧
    (∃ cy p, at_xy canvas (bw - 1) cy = Some p ∧ THRESH < p).
Proof.
  intros Hrect E Hbb Hbh Hle.
  assert (0 < bw) as Hbw by lia.
  destruct (bb_canvas_spec g x y bw bh Hrect Hbb Hbw Hbh)
    as (canvas & Hc & Hrows & Hcols & _ & Hcopy & _).
  rewrite (bb_resize_run w l g E _ _ canvas eq_refl Hc eq_refl).
  assert (is_empty (Gray canvas) = false) as ->.
  { simpl. rewrite Hrows, Hcols.
    apply orb_false_intro; apply Z.eqb_neq; lia. }
  replace (Z.max bw bh) with bw in * by lia.
  replace ((bw - bw) / 2) with 0 in Hcopy by (rewrite Z.sub_diag; reflexivity).
  destruct (boundingRect_px_inside _ _ _ _ _ (rect_map _ _ Hrect) Hbb)
    as [?|(Hx & Hy & _)]; [lia|].
  destruct (boundingRect_edges_bright g x y bw bh Hbb Hbw)
    as ((r1 & p1 & Hp1 & Hb1) & (r2 & p2 & Hp2 & Hb2) & _).
  destruct (boundingRect_contains_bright g x y bw bh _ _ _ Hbb Hp1 Hb1)
    as [_ Hr1].
  destruct (boundingRect_contains_bright g x y bw bh _ _ _ Hbb Hp2 Hb2)
    as [_ Hr2].
  eexists _, _, canvas. split; [reflexivity|].
  split; [solve [heap_lookup]|]. split; [done|]. split.
  - destruct (Hcopy 0 (Z.of_nat r1 - y)) as (q & Hq & Hcanvas); [lia|lia|].
    exists ((bw - bh) / 2 + (Z.of_nat r1 - y)), q.
    split; [exact Hcanvas|].
    unfold at_xy in Hq.
    rewrite andb_true_intro in Hq by (split; apply Z.leb_le; lia).
    replace (Z.to_nat (y + (Z.of_nat r1 - y))) with r1 in Hq by lia.
    rewrite Z.add_0_r in Hq. rewrite Hp1 in Hq. by injection Hq as <-.
  - destruct (Hcopy (bw - 1) (Z.of_nat r2 - y)) as (q & Hq & Hcanvas);
      [lia|lia|].
    exists ((bw - bh) / 2 + (Z.of_nat r2 - y)), q.
    split; [exact Hcanvas|].
    unfold at_xy in Hq.
    rewrite andb_true_intro in Hq by (split; apply Z.leb_le; lia).
    replace (Z.to_nat (y + (Z.of_nat r2 - y))) with r2 in Hq by lia.
    replace (x + (bw - 1)) with (x + bw - 1) in Hq by lia.
    rewrite Hp2 in Hq. by injection Hq as <-.
Qed.

End NormaliserMargins.

Lemma bb_resize_spans_width_witness :
  ∃ (w' : world) (lc : loc) (canvas : gray_px),
    bb_resize (cv := test_cv (λ _ _, None) (λ _ _, None)) (Some 1%positive)
      (one_image (Gray [[0; 0; 0; 0]; [0; 40; 0; 60]; [0; 0; 0; 0]]))
    = (Ok None, w') ∧
    heap w' !! lc = Some (Gray canvas) ∧
    cols canvas = 3 ∧
    (∃ cy p, at_xy canvas 0 cy = Some p ∧ THRESH < p) ∧
    (∃ cy p, at_xy canvas (3 - 1) cy = Some p ∧ THRESH < p).
Proof.
  apply (bb_resize_spans_width
           (cv := test_cv (λ _ _, None) (λ _ _, None))
           (one_image (Gray [[0; 0; 0; 0]; [0; 40; 0; 60]; [0; 0; 0; 0]]))
           1%positive [[0; 0; 0; 0]; [0; 40; 0; 60]; [0; 0; 0; 0]] 1 1 3 1).
  - repeat constructor.
  - reflexivity.
  - reflexivity.
  - vm_compute. reflexivity.
  - vm_compute. discriminate.
Defined.

(** ** Edge detection experiment *)

Section EdgeExperiment.

Context {cv : OpenCV} {fl : FloatOps}.

Lemma cv_Canny_run w l g low high aperture :
  heap w !! l = Some (Gray g) →
  cv_Canny (Some l) low high aperture w =
    (Ok (Some (fresh (dom (heap w)))),
     set_heap (<[fresh (dom (heap w)) := Gray (Canny_px g low high aperture)]>
                 (heap w)) w).
Proof. intros E. unfold cv_Canny, cv_arg. run. Qed.

Lemma edge_loop (lt : loc) (gt : gray_px) (events : list Z) :
  ∀ w : world,
    heap w !! lt = Some (Gray gt) →
    ∃ w' : world,
      for_each events (λ pos,
        p ← get_globals;
        _ ← put_globals
              {| DP := DP p; MD := MD p; P1 := P1 p; P2 := P2 p;
                 MIN_R := MIN_R p; MAX_R := MAX_R p;
                 LOW_THRESH := pos; MAX_THRESH := MAX_THRESH p |};
        p ← get_globals;
        edges ← cv_Canny (Some lt) (LOW_THRESH p) (MAX_THRESH p) KERNEL;
        cv_imshow "Canny Edge Detect Experiment" edges) w = (Ok tt, w') ∧
      (∀ k a, heap w !! k = Some a → heap w' !! k = Some a) ∧
      MAX_THRESH (globals w') = MAX_THRESH (globals w) ∧
      LOW_THRESH (globals w') = default (LOW_THRESH (globals w)) (last events) ∧
      shown w' = shown w ++
        map (λ pos, ("Canny Edge Detect Experiment",
                     Gray (Canny_px gt pos (MAX_THRESH (globals w)) KERNEL)))
            events.
Proof.
  induction events as [|pos events IH]; intros w E.
  - exists w. split; [reflexivity|]. split; [done|]. split; [done|].
    split; [done|]. by rewrite app_nil_r.
  - set (p' := {| DP := DP (globals w); MD := MD (globals w);
                  P1 := P1 (globals w); P2 := P2 (globals w);
                  MIN_R := MIN_R (globals w); MAX_R := MAX_R (globals w);
                  LOW_THRESH := pos; MAX_THRESH := MAX_THRESH (globals w) |}).
    set (e := Gray (Canny_px gt pos (MAX_THRESH (globals w)) KERNEL)).
    set (w1 := add_shown "Canny Edge Detect Experiment" e
                 (set_heap (<[fresh (dom (heap w)) := e]> (heap w))
                    (set_globals p' w))).
    assert (∀ k a, heap w !! k = Some a → heap w1 !! k = Some a) as Hkeep.
    { intros k a Hk. subst w1. cbn [heap add_shown set_heap set_globals].
      rewrite lookup_insert_ne; [done|]. by eapply fresh_heap_ne. }
    destruct (IH w1 (Hkeep _ _ E)) as (w' & Hrun & Hk & Hmax & Hlow & Hshown).
    exists w'. split.
    + cbn [for_each]. erewrite bind_ok; [exact Hrun|].
      run_steps. erewrite bind_ok.
      2:{ apply cv_Canny_run. cbn [heap set_globals]. exact E. }
      cbv beta. unfold cv_imshow, cv_arg. run.
    + split; [intros k a Hka; by apply Hk, Hkeep|].
      split; [by rewrite Hmax|].
      split.
      * rewrite Hlow. subst w1 p'.
        cbn [globals add_shown set_heap set_globals LOW_THRESH].
        rewrite last_cons. by destruct (last events).
      * rewrite Hshown. subst w1 p' e.
        cbn [shown globals add_shown set_heap set_globals map MAX_THRESH].
        by rewrite <- app_assoc.
Qed.

(** X17: every slider move shows the edges of the thresholded image for the new
    lower threshold and the upper threshold the experiment started with; the
    global lower threshold keeps the last slider value when the experiment
    ends, and the loaded image is not changed. *)
Theorem experiment_edge_detect_views
    (path : string) (events : list Z) (w w1 : world) (l : loc) (g : gray_px) :
  load_image path true false true w = (Ok (Some l), w1) →
  heap w1 !! l = Some (Gray g) →
  ∃ w' : world,
    experiment_edge_detect path events w = (Ok None, w') ∧
    heap w' !! l = Some (Gray g) ∧
    LOW_THRESH (globals w')
      = default (LOW_THRESH (globals w1)) (last events) ∧
    shown w' = shown w1 ++
      map (λ low, ("Canny Edge Detect Experiment",
                   Gray (Canny_px (map (map (thresh_binary THRESH 255)) g)
                           low (MAX_THRESH (globals w1)) KERNEL)))
          (LOW_THRESH (globals w1) :: events).
Proof.
  intros Hload E. unfold experiment_edge_detect.
  erewrite bind_ok by exact Hload. cbv beta.
  erewrite bind_ok by (apply threshold_run; exact E). cbv beta.
  erewrite bind_ok by reflexivity. cbv beta.
  erewrite bind_ok by (apply cv_Canny_run; solve [heap_lookup]).
  cbv beta zeta. unfold cv_imshow at 2, cv_arg.
  erewrite bind_ok by run. cbv beta.
  edestruct (edge_loop (fresh (dom (heap w1)))
               (map (map (thresh_binary THRESH 255)) g) events)
    as (w' & Hrun & Hk & _ & Hlow & Hshown).
  2:{ erewrite bind_ok by exact Hrun. cbv beta.
      exists w'. split; [reflexivity|].
      split; [apply Hk; solve [heap_lookup]|].
      split; [exact Hlow|].
      rewrite Hshown. cbn [shown globals add_shown set_heap map].
      by rewrite <- app_assoc. }
  solve [heap_lookup].
Qed.

End EdgeExperiment.

Lemma experiment_edge_detect_views_witness :
  ∃ w' : world,
    experiment_edge_detect
      (cv := test_cv (λ _ _, Some (Gray (replicate 512 [20; 100]))) (λ _ _, None))
      (fl := exact_float) "eye.jpeg" [10; 90] empty_world = (Ok None, w') ∧
    LOW_THRESH (globals w') = 90 ∧
    length (shown w') = 3%nat.
Proof.
  edestruct (experiment_edge_detect_views
               (cv := test_cv (λ _ _, Some (Gray (replicate 512 [20; 100])))
                              (λ _ _, None))
               (fl := exact_float) "eye.jpeg" [10; 90] empty_world)
    as (w' & Hrun & _ & Hlow & Hshown).
  - vm_compute. reflexivity.
  - vm_compute. reflexivity.
  - exists w'. split; [exact Hrun|]. rewrite Hlow, Hshown.
    split; reflexivity.
Defined.
